(** * LocationGPT map client: clustering, colours, marker sizes, visibility,
      viewport and query handling

    A shallow embedding of [client/src/components/Map.tsx] and of
    [handleQuery] in [client/src/app/page.tsx].

    Conventions of the embedding:
    - a JavaScript [number] is an IEEE 754 binary64 value, modelled by Rocq's
      primitive [float]; array indices and lengths are [nat] or [Z]; the
      numbers of [getPersonColor], which are integers, are kept as integers,
      with the rounding to a double written out ([Color.toNumber]);
    - a JavaScript string is a [string], a character standing for one code
      unit below 256; an optional field ([person?: string]) is an [option];
      [undefined] as a result is [None]; a function that can throw returns an
      [option], [None] being the exception;
    - a [Set<number>] is a [gset nat], a [Set<string>] a [gset string], an
      object used as a dictionary ([Record<string, T>]) a [gmap string T] of
      its own properties, read through [inherited] for the names every plain
      object takes from [Object.prototype];
    - [Array.prototype.forEach] with its index argument is the left fold
      [forEach] below, which threads the variables the callback mutates. *)

From Stdlib Require Import ZArith List Bool Lia Permutation Sorted Ascii String.
From Stdlib Require Import Floats Uint63.
From Equations Require Import Equations.
From stdpp Require Import base decidable option list gmap sets strings.

Set Warnings "-inexact-float,-clear-no-such-hyp".

Local Open Scope string_scope.
Local Open Scope list_scope.

(** ** JavaScript helpers *)

(** [s || d] on an optional string: [undefined], [null] and the empty string
    are falsy. *)
Definition or_else (s : option string) (d : string) : string :=
  match s with
  | Some v => if String.eqb v "" then d else v
  | None => d
  end.

(** The property names a plain object inherits from [Object.prototype]: for
    these, [obj[k]] is truthy although [obj] has no own property [k]. *)
Definition objectPrototypeNames : list string :=
  [ "constructor"; "__defineGetter__"; "__defineSetter__"; "hasOwnProperty";
    "__lookupGetter__"; "__lookupSetter__"; "isPrototypeOf";
    "propertyIsEnumerable"; "toString"; "valueOf"; "__proto__";
    "toLocaleString" ].

Definition inherited (k : string) : bool :=
  existsb (String.eqb k) objectPrototypeNames.

(** A JavaScript number holding the integer [z]; exact while
    [|z| < 2^53], which covers every array index and length. *)
Definition number_of_Z (z : Z) : float :=
  if (z <? 0)%Z then (- PrimFloat.of_uint63 (Uint63.of_Z (- z)))%float
  else PrimFloat.of_uint63 (Uint63.of_Z z).

(** [arr.forEach((x, i) => ...)], with the state the callback updates made
    explicit; [i] is the index of the first element of [l]. *)
Fixpoint forEach {A St : Type} (f : St -> A -> nat -> St) (l : list A) (i : nat) (s : St) : St :=
  match l with
  | [] => s
  | x :: l' => forEach f l' (S i) (f s x i)
  end.

(** ** Data model ([types/api.ts], [Map.tsx]) *)

(** [LocationData]; [LocationItem] of [Map.tsx] is the same object seen
    through fewer fields. *)
Record LocationData : Type := mkLocation {
  timestamp : string;
  latitude : float;
  longitude : float;
  altitude : float;
  horizontal_accuracy_meters : float;
  vertical_accuracy_meters : float;
  speed_mps : float;
  bearing_degrees : float;
  provider : string;
  person : option string
}.

Definition LocationItem : Type := LocationData.

Definition LatLng : Type := (float * float)%type.

Record ClusterItem : Type := mkCluster {
  cluster_locations : list LocationItem;
  cluster_center : LatLng;
  cluster_person : string
}.

Record Coordinate : Type := mkCoordinate {
  lat : float;
  lng : float;
  coordinate_person : option string
}.

(** [LocationResponse]: the field [person] is [response_person] here, the
    name [person] being the sample's. *)
Record LocationResponse : Type := mkResponse {
  response_person : option string;
  persons : option (list string);
  time_period : option string;
  locations : list LocationData;
  summary : string;
  coordinates : option (list Coordinate);
  person_colors : option (gmap string string)
}.

(** ** Clustering ([clusterLocations]) *)

Module Clustering.

(** [Math.pow(v, 2)], taken to be the correctly rounded square [v * v]. *)
Definition pow2 (v : float) : float := (v * v)%float.

(** The planar distance of the inner callback, in metres. *)
Definition distance (location otherLocation : LocationItem) : float :=
  PrimFloat.sqrt
    (pow2 ((latitude location - latitude otherLocation) * 111000)
     + pow2 ((longitude location - longitude otherLocation) * 111000))%float.

Definition personOf (l : LocationItem) : string := or_else (person l) "unknown".

Definition coordOf (l : LocationItem) : LatLng := (latitude l, longitude l).

(** The inner [locations.forEach]: the state is [cluster.locations] and
    [processed]. *)
Definition inner (distanceThreshold : float) (location : LocationItem) (index : nat)
    (st : list LocationItem * gset nat) (otherLocation : LocationItem) (otherIndex : nat)
    : list LocationItem * gset nat :=
  let '(members, processed) := st in
  if bool_decide (otherIndex = index) || bool_decide (otherIndex ∈ processed) then st
  else if negb (String.eqb (personOf otherLocation) (personOf location)) then st
  else if (distance location otherLocation <=? distanceThreshold)%float
       then (members ++ [otherLocation], {[otherIndex]} ∪ processed)
       else st.

(** The outer [locations.forEach]: the state is [clusters] and [processed]. *)
Definition outer (distanceThreshold : float) (locations : list LocationItem)
    (st : list ClusterItem * gset nat) (location : LocationItem) (index : nat)
    : list ClusterItem * gset nat :=
  let '(clusters, processed) := st in
  if bool_decide (index ∈ processed) then st
  else
    let '(members, processed') :=
      forEach (inner distanceThreshold location index) locations 0 ([location], processed) in
    (clusters ++ [mkCluster members (coordOf location) (personOf location)],
     {[index]} ∪ processed').

Definition clusterLocations (locations : list LocationItem) (distanceThreshold : float)
    : list ClusterItem :=
  fst (forEach (outer distanceThreshold locations) locations 0 ([], ∅)).

(** The default value of the [distanceThreshold] parameter. *)
Definition defaultThreshold : float := 50%float.

End Clustering.

(** ** Colour assignment ([getPersonColor], [getPersonColorFromResponse]) *)

Module Color.

(** What a colour lookup can evaluate to: a string, [undefined], or the member
    of [Object.prototype] that an inherited property name reads. *)
Inductive value : Type :=
| Str (s : string)
| Undefined
| Builtin (name : string).

Definition gray : string := "#6B7280".

Definition colors : list string :=
  [ "#3B82F6"; "#EF4444"; "#10B981"; "#F59E0B"; "#8B5CF6";
    "#EC4899"; "#06B6D4"; "#84CC16"; "#F97316"; "#6366F1" ].

(** [\d] (no unicode flag): the ten ASCII digits. *)
Definition is_digit (c : ascii) : bool :=
  ((48 <=? nat_of_ascii c)%nat && (nat_of_ascii c <=? 57)%nat)%bool.

(** The longest run of digits at the start of [s] ([\d+] is greedy). *)
Fixpoint digits (s : string) : string :=
  match s with
  | String c s' => if is_digit c then String c (digits s') else EmptyString
  | EmptyString => EmptyString
  end.

(** [s] without the prefix [p], when it has it. *)
Fixpoint strip_prefix (p s : string) : option string :=
  match p, s with
  | EmptyString, _ => Some s
  | String a p', String b s' => if Ascii.eqb a b then strip_prefix p' s' else None
  | String _ _, EmptyString => None
  end.

(** [person.match(/person(\d+)/)]: the capture group of the leftmost match,
    [None] when the pattern occurs nowhere in [s]. *)
Fixpoint match_person (s : string) : option string :=
  match s with
  | EmptyString => None
  | String _ s' =>
      match strip_prefix "person" s with
      | Some r =>
          match digits r with
          | EmptyString => match_person s'
          | ds => Some ds
          end
      | None => match_person s'
      end
  end.

(** The integer that a string of decimal digits denotes. *)
Definition mathInt (ds : string) : Z :=
  fold_left (fun acc c => (10 * acc + (Z.of_nat (nat_of_ascii c) - 48))%Z)
            (list_ascii_of_string ds) 0%Z.

(** The numbers that [getPersonColor] computes with: doubles that are
    integers, [Infinity] and [NaN].  ([Integer 0] stands for both zeros; as
    an array index they are the same.) *)
Inductive number : Type :=
| Integer (z : Z)
| PlusInfinity
| NotANumber.

(** The double for an integer.  Below [2^53] in magnitude every integer is a
    double; a larger one is rounded to the nearest double, ties to even, and
    to [Infinity] past the largest double. *)
Definition toNumber (z : Z) : number :=
  if (Z.abs z <? 2 ^ 53)%Z then Integer z
  else
    match binary_normalize prec emax z 0 false with
    | S754_zero _ => Integer 0
    | S754_finite s m e => Integer ((if s then -1 else 1) * (Z.pos m * 2 ^ e))
    | S754_infinity _ => PlusInfinity
    | S754_nan => NotANumber
    end.

(** [parseInt] on a non-empty string of decimal digits. *)
Definition parseInt (ds : string) : number := toNumber (mathInt ds).

(** [x - k] for an integer [k]: the exact difference, rounded. *)
Definition minus (x : number) (k : Z) : number :=
  match x with
  | Integer n => toNumber (n - k)
  | PlusInfinity => PlusInfinity
  | NotANumber => NotANumber
  end.

(** [x % n] for a positive integer [n]: the remainder that takes the sign of
    the dividend, which is exact; [NaN] for an infinite dividend. *)
Definition remainder (x : number) (n : Z) : number :=
  match x with
  | Integer i => Integer (Z.rem i n)
  | PlusInfinity | NotANumber => NotANumber
  end.

(** [arr[i]] for an integer [i]: [undefined] out of range. *)
Definition at_index (arr : list string) (i : Z) : option string :=
  if (i <? 0)%Z then None else arr !! Z.to_nat i.

(** [arr[x]] for a number [x]: no element is stored under [NaN]. *)
Definition at_number (arr : list string) (x : number) : option string :=
  match x with
  | Integer i => at_index arr i
  | PlusInfinity | NotANumber => None
  end.

(** [getPersonColor]. *)
Definition getPersonColor (person : option string) : option string :=
  match person with
  | None => Some gray
  | Some p =>
      if String.eqb p "" then Some gray
      else
        let personIndex :=
          match match_person p with
          | Some ds => minus (parseInt ds) 1
          | None => Integer 0
          end in
        at_number colors (remainder personIndex (Z.of_nat (length colors)))
  end.

Definition of_option (o : option string) : value :=
  match o with
  | Some s => Str s
  | None => Undefined
  end.

(** [getPersonColorFromResponse], a closure over the [locations] prop. *)
Definition getPersonColorFromResponse (locations : option LocationResponse)
    (person : option string) : value :=
  match locations, person with
  | Some r, Some p =>
      match person_colors r with
      | Some table =>
          if String.eqb p "" then of_option (getPersonColor person)
          else
            match table !! p with
            | Some c => if String.eqb c "" then of_option (getPersonColor person) else Str c
            | None => if inherited p then Builtin p else of_option (getPersonColor person)
            end
      | None => of_option (getPersonColor person)
      end
  | _, _ => of_option (getPersonColor person)
  end.

End Color.

(** ** Marker sizes ([getMarkerSize], [allTimestamps]) *)

Module MarkerSize.

Inductive size : Type := small | medium | large.

(** [arr.sort()] on an array of strings: ascending by code units.  Equal
    strings are indistinguishable, so the sorted array does not depend on the
    algorithm; insertion is used here. *)
Fixpoint insert (x : string) (l : list string) : list string :=
  match l with
  | [] => [x]
  | y :: l' => if String.leb x y then x :: l else y :: insert x l'
  end.

Definition sort (l : list string) : list string := fold_right insert [] l.

(** [arr.indexOf(x)]: the first index holding [x], or [-1]. *)
Fixpoint indexOf (l : list string) (x : string) : Z :=
  match l with
  | [] => (-1)%Z
  | y :: l' =>
      if String.eqb y x then 0%Z
      else
        let r := indexOf l' x in
        if (r <? 0)%Z then (-1)%Z else (r + 1)%Z
  end.

Definition getMarkerSize (timestamp : string) (allTimestamps : list string) : size :=
  if (length allTimestamps <=? 1)%nat then medium
  else
    let sortedTimes := sort allTimestamps in
    let index := indexOf sortedTimes timestamp in
    let ratio :=
      (number_of_Z index / number_of_Z (Z.of_nat (length sortedTimes) - 1))%float in
    if (ratio <? 0.3)%float then small
    else if (0.8 <? ratio)%float then large
    else medium.

(** The [allTimestamps] memo of [Map]: the timestamps of every sample of the
    response. *)
Definition allTimestamps (locs : option LocationResponse) : list string :=
  match locs with
  | Some r => map timestamp (locations r)
  | None => []
  end.

(** The size the renderer gives the marker of a single-sample cluster:
    [getMarkerSize(location.timestamp, allTimestamps)]. *)
Definition markerSize (locs : option LocationResponse) (location : LocationItem) : size :=
  getMarkerSize (timestamp location) (allTimestamps locs).

End MarkerSize.

(** ** Visibility state ([Map]'s [useState], [useMemo] and [useEffect]) *)

Module Visibility.

(** The key a sample is grouped under:
    [location.person || locations?.person || 'unknown']. *)
Definition personKey (r : LocationResponse) (location : LocationData) : string :=
  or_else (person location) (or_else (response_person r) "unknown").

(** One step of the [reduce] of [locationsByPerson].  [None] is the
    [TypeError] raised by [acc[person].push] when [person] names a member of
    [Object.prototype], which is truthy and has no [push]. *)
Definition group_step (r : LocationResponse) (acc : option (gmap string (list LocationData)))
    (location : LocationData) : option (gmap string (list LocationData)) :=
  match acc with
  | None => None
  | Some m =>
      let person := personKey r location in
      match m !! person with
      | Some locs => Some (<[person := locs ++ [location]]> m)
      | None => if inherited person then None else Some (<[person := [location]]> m)
      end
  end.

Definition locationsByPerson (locs : option LocationResponse)
    : option (gmap string (list LocationData)) :=
  match locs with
  | Some r => fold_left (group_step r) (locations r) (Some ∅)
  | None => Some ∅
  end.

Record State : Type := mkState {
  showPaths : bool;
  showArrows : bool;
  showClusters : bool;
  visiblePersons : gset string
}.

(** The initial values of the four [useState] hooks. *)
Definition initial : State := mkState true true true ∅.

Definition setShowPaths (b : bool) (st : State) : State :=
  mkState b (showArrows st) (showClusters st) (visiblePersons st).

Definition setShowArrows (b : bool) (st : State) : State :=
  mkState (showPaths st) b (showClusters st) (visiblePersons st).

Definition setShowClusters (b : bool) (st : State) : State :=
  mkState (showPaths st) (showArrows st) b (visiblePersons st).

Definition togglePersonVisibility (p : string) (st : State) : State :=
  mkState (showPaths st) (showArrows st) (showClusters st)
    (if bool_decide (p ∈ visiblePersons st) then visiblePersons st ∖ {[p]}
     else {[p]} ∪ visiblePersons st).

(** The effect that runs when [locationsByPerson] changes, that is when the
    [locations] prop is a new object:
    [setVisiblePersons(new Set(Object.keys(locationsByPerson)))].  [None]
    when computing [locationsByPerson] throws. *)
Definition onLocations (locs : option LocationResponse) (st : State) : option State :=
  match locationsByPerson locs with
  | Some groups =>
      Some (mkState (showPaths st) (showArrows st) (showClusters st) (dom groups))
  | None => None
  end.

(** What the user and the parent component can do to the state. *)
Inductive action : Type :=
| SetShowPaths (b : bool)
| SetShowArrows (b : bool)
| SetShowClusters (b : bool)
| TogglePerson (p : string)
| NewLocations (locs : option LocationResponse).

Definition step (st : State) (a : action) : option State :=
  match a with
  | SetShowPaths b => Some (setShowPaths b st)
  | SetShowArrows b => Some (setShowArrows b st)
  | SetShowClusters b => Some (setShowClusters b st)
  | TogglePerson p => Some (togglePersonVisibility p st)
  | NewLocations locs => onLocations locs st
  end.

Fixpoint run (st : State) (acts : list action) : option State :=
  match acts with
  | [] => Some st
  | a :: acts' =>
      match step st a with
      | Some st' => run st' acts'
      | None => None
      end
  end.

End Visibility.

(** ** Map viewport ([getMapBounds]) *)

Module Viewport.

Definition is_neg_zero (x : float) : bool :=
  match PrimFloat.classify x with
  | NZero => true
  | _ => false
  end.

Definition is_pos_zero (x : float) : bool :=
  match PrimFloat.classify x with
  | PZero => true
  | _ => false
  end.

(** [Math.min(...xs)] as ECMAScript defines it: [NaN] if any argument is,
    else the least, [-0] counting as less than [+0]; [+Infinity] without
    arguments. *)
Fixpoint min_from (lowest : float) (xs : list float) : float :=
  match xs with
  | [] => lowest
  | x :: xs' =>
      if PrimFloat.is_nan x then PrimFloat.nan
      else if is_neg_zero x && is_pos_zero lowest then min_from x xs'
      else if (x <? lowest)%float then min_from x xs'
      else min_from lowest xs'
  end.

Definition Math_min (xs : list float) : float := min_from PrimFloat.infinity xs.

(** [Math.max(...xs)], symmetrically. *)
Fixpoint max_from (highest : float) (xs : list float) : float :=
  match xs with
  | [] => highest
  | x :: xs' =>
      if PrimFloat.is_nan x then PrimFloat.nan
      else if is_pos_zero x && is_neg_zero highest then max_from x xs'
      else if (highest <? x)%float then max_from x xs'
      else max_from highest xs'
  end.

Definition Math_max (xs : list float) : float := max_from PrimFloat.neg_infinity xs.

Definition defaultCenter : LatLng := (32.0853%float, 34.7818%float).
Definition defaultZoom : Z := 13.

Record bounds : Type := mkBounds { center : LatLng; zoom : Z }.

Definition getMapBounds (locs : option LocationResponse) : bounds :=
  match locs with
  | None => mkBounds defaultCenter defaultZoom
  | Some r =>
      let coords := map (fun loc => (latitude loc, longitude loc)) (locations r) in
      match coords with
      | [] => mkBounds defaultCenter defaultZoom
      | [c] => mkBounds c 15
      | _ =>
          let lats := map fst coords in
          let lngs := map snd coords in
          mkBounds ((Math_min lats + Math_max lats) / 2,
                    (Math_min lngs + Math_max lngs) / 2)%float 14
      end
  end.

End Viewport.

(** ** Query submission ([handleQuery] of [page.tsx]) *)

Module Page.

(** How the [fetch] of one query ends: the promise rejects (transport
    failure), or a response arrives with its [ok] flag and, when
    [response.json()] resolves, its decoded body. *)
Inductive outcome : Type :=
| Rejected
| Response (ok : bool) (body : option LocationResponse).

(** The state of [Home] that [handleQuery] touches, [locations] (the result
    on display) and [loading], with the messages it has sent to [alert] and
    [console.error]. *)
Record Home : Type := mkHome {
  locations : option LocationResponse;
  loading : bool;
  alerts : list string;
  errors : list string
}.

Definition initial : Home := mkHome None false [] [].

Definition alertMessage : string :=
  "Error querying locations. Make sure the backend server is running.".

Definition errorMessage : string := "Error querying locations:".

(** [handleQuery] up to its first [await]: [setLoading(true)] and the request
    is sent. *)
Definition handleQuery_submit (h : Home) : Home :=
  mkHome (locations h) true (alerts h) (errors h).

(** The [catch] block followed by [finally]. *)
Definition handleQuery_fail (h : Home) : Home :=
  mkHome (locations h) false (alerts h ++ [alertMessage]) (errors h ++ [errorMessage]).

(** The rest of [handleQuery], run when the [fetch] settles. *)
Definition handleQuery_settle (o : outcome) (h : Home) : Home :=
  match o with
  | Rejected => handleQuery_fail h
  | Response false _ => handleQuery_fail h
  | Response true None => handleQuery_fail h
  | Response true (Some data) => mkHome (Some data) false (alerts h) (errors h)
  end.

(** A whole call with nothing in between. *)
Definition handleQuery (o : outcome) (h : Home) : Home :=
  handleQuery_settle o (handleQuery_submit h).

(** Calls may overlap: the example-query buttons call [handleQuery] whatever
    [loading] is.  An event is the start of a call or the settling of the
    [fetch] of an earlier one. *)
Inductive event : Type :=
| Submit (query : string)
| Settle (query : string) (o : outcome).

Definition react (h : Home) (e : event) : Home :=
  match e with
  | Submit _ => handleQuery_submit h
  | Settle _ o => handleQuery_settle o h
  end.

Definition run (h : Home) (trace : list event) : Home := fold_left react trace h.

End Page.

(** ** Derived layers of [Map]: clusters, paths, arrows, latest sample *)

Module Layers.
Import Clustering.

(** [getMidpoint]. *)
Definition getMidpoint (lat1 lng1 lat2 lng2 : float) : LatLng :=
  ((lat1 + lat2) / 2, (lng1 + lng2) / 2)%float.

(** The clusters given to one person by the [forEach] of [clustersByPerson]:
    [clusterLocations(locs)], with the default threshold, when grouping is
    on, else one cluster per sample. *)
Definition clustersFor (showClusters : bool) (person : string) (locs : list LocationData)
    : list ClusterItem :=
  if showClusters then clusterLocations locs defaultThreshold
  else map (fun loc => mkCluster [loc] (latitude loc, longitude loc) person) locs.

(** [clustersByPerson]: [result[person] = ...] for every entry of
    [locationsByPerson]. *)
Definition clustersByPerson (groups : gmap string (list LocationData)) (showClusters : bool)
    : gmap string (list ClusterItem) :=
  map_fold (fun person locs result => <[person := clustersFor showClusters person locs]> result)
           ∅ groups.

(** [pathsByPerson]: the [reduce] over the entries of [locationsByPerson]
    that keeps the visible persons. *)
Definition pathsByPerson (groups : gmap string (list LocationData)) (visiblePersons : gset string)
    : gmap string (list LatLng) :=
  map_fold (fun person locs acc =>
              if bool_decide (person ∈ visiblePersons)
              then <[person := map (fun loc => (latitude loc, longitude loc)) locs]> acc
              else acc)
           ∅ groups.

(** [arr.map((x, i) => ...)] with a callback that can throw ([None]). *)
Fixpoint mapIndexed {A B : Type} (f : A -> nat -> option B) (l : list A) (i : nat)
    : option (list B) :=
  match l with
  | [] => Some []
  | x :: l' =>
      match f x i, mapIndexed f l' (S i) with
      | Some y, Some ys => Some (y :: ys)
      | _, _ => None
      end
  end.

(** The place of the arrow drawn for [coord], the point of index [index]:
    the midpoint with [coordinates[index + 1]].  Destructuring an absent
    next point would throw. *)
Definition arrowAt (coordinates : list LatLng) (coord : LatLng) (index : nat) : option LatLng :=
  match coordinates !! (index + 1) with
  | Some nextCoord => Some (getMidpoint (fst coord) (snd coord) (fst nextCoord) (snd nextCoord))
  | None => None
  end.

(** The positions of the direction arrows of one path:
    [coordinates.length > 1 && coordinates.slice(0, -1).map(...)]; nothing is
    drawn for a shorter path.  The rotation of each arrow, which
    [calculateBearing] computes with trigonometric functions, is left out. *)
Definition arrowPositions (coordinates : list LatLng) : option (list LatLng) :=
  if (1 <? length coordinates)%nat
  then mapIndexed (arrowAt coordinates) (take (length coordinates - 1) coordinates) 0
  else Some [].

(** Whether the polyline of a path is drawn: [coordinates.length > 1]. *)
Definition polylineDrawn (showPaths : bool) (coordinates : list LatLng) : bool :=
  showPaths && (1 <? length coordinates)%nat.

Section Latest.

(** [new Date(s).valueOf()]: the time value of the date that [s] denotes,
    [NaN] when it denotes none. *)
Variable dateValue : string -> float.

(** The callback of the [reduce] of [latestTimestamp]:
    [new Date(current) > new Date(latest) ? current : latest]. *)
Definition laterOf (latest current : string) : string :=
  if (dateValue latest <? dateValue current)%float then current else latest.

(** [latestTimestamp]: [null] without timestamps, else the [reduce] seeded
    with the first one. *)
Definition latestTimestamp (allTimestamps : list string) : option string :=
  match allTimestamps with
  | [] => None
  | first :: rest => Some (fold_left laterOf rest first)
  end.

(** What is drawn for one cluster: a person marker for a single sample, else
    a badge showing the number of samples. *)
Inductive drawn : Type :=
| PersonMarker (location : LocationItem) (markerSize : MarkerSize.size) (isLatest : bool)
    (color : Color.value)
| ClusterBadge (position : LatLng) (count : nat) (color : Color.value).

(** The callback of [clusters.map] in the rendering of [Map].  [None] is the
    [RangeError] that [new Date(location.timestamp).toISOString()] raises in
    the popup of a single marker when the timestamp denotes no date; the
    popup of a badge uses [toLocaleString], which does not raise.
    ([btoa] in [personIcon] raises on a code unit above 255; the characters
    of a [string] stand for code units below 256.) *)
Definition drawCluster (locs : option LocationResponse) (person : string)
    (cluster : ClusterItem) : option drawn :=
  let color := Color.getPersonColorFromResponse locs (Some person) in
  match cluster_locations cluster with
  | [location] =>
      let markerSize :=
        MarkerSize.getMarkerSize (timestamp location) (MarkerSize.allTimestamps locs) in
      let isLatest :=
        match latestTimestamp (MarkerSize.allTimestamps locs) with
        | Some latest => String.eqb (timestamp location) latest
        | None => false
        end in
      if PrimFloat.is_nan (dateValue (timestamp location)) then None
      else Some (PersonMarker location markerSize isLatest color)
  | _ => Some (ClusterBadge (cluster_center cluster) (length (cluster_locations cluster)) color)
  end.

(** The markers of one person: none when the person is hidden; [None] when
    drawing one of them raises, which makes the rendering of [Map] raise. *)
Definition drawPerson (locs : option LocationResponse) (visiblePersons : gset string)
    (person : string) (clusters : list ClusterItem) : option (list drawn) :=
  if bool_decide (person ∈ visiblePersons)
  then mapIndexed (fun cluster clusterIndex => drawCluster locs person cluster) clusters 0
  else Some [].

End Latest.

End Layers.

(** ** The person directory and the example queries ([page.tsx]) *)

Module Directory.

(** What [response.json()] gives: it rejects ([Undecodable]), or resolves
    with [null], whose [persons] property cannot be read, or with another
    value, of which [data.persons] is kept: [None] when it is absent or
    [null], else the list the server sent. *)
Inductive body : Type :=
| Undecodable
| Null
| Data (persons : option (list string)).

(** How the [fetch] of [/persons] ends: rejected, or answered with its [ok]
    flag and a body. *)
Inductive outcome : Type :=
| Rejected
| Response (ok : bool) (b : body).

Definition fallbackPersons : list string := ["person1"; "person2"].

(** [fetchPersons], on the state variable [availablePersons]: the [catch]
    block installs the fallback list. *)
Definition fetchPersons (o : outcome) (availablePersons : list string) : list string :=
  match o with
  | Rejected => fallbackPersons
  | Response false _ => availablePersons
  | Response true Undecodable => fallbackPersons
  | Response true Null => fallbackPersons
  | Response true (Data None) => []
  | Response true (Data (Some persons)) => persons
  end.

(** The texts of the example-query buttons that [Home] renders, in order. *)
Definition exampleQueries (availablePersons : list string) : list string :=
  match availablePersons with
  | [] => []
  | first :: rest =>
      ["Where was " +:+ first +:+ " between 8am and 11am?"]
      ++ match rest with
         | second :: _ => ["What locations did " +:+ second +:+ " visit throughout the day?"]
         | [] => []
         end
      ++ ["Where was " +:+ first +:+ " at 3pm?"]
      ++ match rest with
         | second :: _ =>
             [ "Where were " +:+ first +:+ " and " +:+ second +:+ " at 3pm?";
               "Were there any locations where " +:+ first +:+ " and "
                 +:+ second +:+ " were together?" ]
         | [] => []
         end
  end.

End Directory.

(** ** The query form ([QueryForm] of [page.tsx])

    Here a character of a [string] stands for one code unit below 256. *)

Module QueryForm.

(** White space and line terminators, as [String.prototype.trim] removes
    them: among the code units below 256 these are tab, line feed, vertical
    tab, form feed, carriage return, space and no-break space. *)
Definition is_white (c : ascii) : bool :=
  let n := nat_of_ascii c in
  ((9 <=? n)%nat && (n <=? 13)%nat) || (n =? 32)%nat || (n =? 160)%nat.

Fixpoint trimStart (s : string) : string :=
  match s with
  | String c s' => if is_white c then trimStart s' else s
  | EmptyString => EmptyString
  end.

(** [s] without its trailing white space. *)
Fixpoint trimEnd (s : string) : string :=
  match s with
  | String c s' =>
      match trimEnd s' with
      | EmptyString => if is_white c then EmptyString else String c EmptyString
      | rest => String c rest
      end
  | EmptyString => EmptyString
  end.

Definition trim (s : string) : string := trimEnd (trimStart s).

(** [handleSubmit]: the argument [onSubmit] is called with, [None] when it is
    not called. *)
Definition handleSubmit (query : string) : option string :=
  if String.eqb (trim query) "" then None else Some (trim query).

(** The [disabled] attribute of the submit button. *)
Definition submitDisabled (loading : bool) (query : string) : bool :=
  loading || String.eqb (trim query) "".

End QueryForm.

(** * Notions used to state the properties, and sample data *)

Module Notions.
Import Clustering MarkerSize.

(** [otherLocation] is of the person of [location] and within the threshold
    of it: the two tests a sample passes to join the cluster seeded by
    [location]. *)
Definition joins (distanceThreshold : float) (location otherLocation : LocationItem) : bool :=
  String.eqb (personOf otherLocation) (personOf location)
  && (distance location otherLocation <=? distanceThreshold)%float.

(** The greedy algorithm of the design, written from its description: take
    the first sample not yet assigned as the seed of a new cluster whose
    centre is the seed's coordinate; the later unassigned samples of the same
    person within the threshold of the seed join it; go on with the rest. *)
Equations greedyReference (t : float) (samples : list LocationItem) : list ClusterItem
  by wf (length samples) lt :=
greedyReference t [] := [];
greedyReference t (seed :: rest) :=
  mkCluster (seed :: filter (fun s => joins t seed s = true) rest)
            (coordOf seed) (personOf seed)
  :: greedyReference t (filter (fun s => joins t seed s <> true) rest).
Next Obligation.
  intros. simpl. apply Nat.lt_succ_r, length_filter.
Qed.

(** The samples of [l] (whose first element has index [k]) that [processed]
    does not hold yet, in order. *)
Fixpoint unprocessed (processed : gset nat) (k : nat) (l : list LocationItem) : list LocationItem :=
  match l with
  | [] => []
  | x :: l' =>
      if bool_decide (k ∈ processed) then unprocessed processed (S k) l'
      else x :: unprocessed processed (S k) l'
  end.

(** A cluster is the seed followed by samples that each pass the test against
    the seed, and its centre and person are the seed's. *)
Definition seeded (t : float) (c : ClusterItem) : Prop :=
  exists (seed : LocationItem) (members : list LocationItem),
    cluster_locations c = seed :: members
    /\ cluster_center c = coordOf seed
    /\ cluster_person c = personOf seed
    /\ Forall (fun m => joins t seed m = true) members.

Definition clusterSizes (cs : list ClusterItem) : list nat :=
  map (fun c => length (cluster_locations c)) cs.

(** The rank of [t] among [ts]: how many of them sort strictly before it. *)
Definition rank (ts : list string) (t : string) : nat :=
  length (filter (fun u => String.ltb u t = true) ts).

(** The tier as a function of the index found and of the number of
    timestamps. *)
Definition tierOf (index : Z) (n : nat) : size :=
  let ratio := (number_of_Z index / number_of_Z (Z.of_nat n - 1))%float in
  if (ratio <? 0.3)%float then small
  else if (0.8 <? ratio)%float then large
  else medium.

(** The tier of rank [k] among ten timestamps. *)
Definition tierOfTen (k : nat) : size :=
  if (k <=? 2)%nat then small else if (k <=? 7)%nat then medium else large.

(** The timestamps of the samples of person [p] in a response, the second
    argument of the resolver as the design describes it. *)
Definition personTimestamps (r : LocationResponse) (p : string) : list string :=
  map timestamp (filter (fun l => Visibility.personKey r l = p) (locations r)).

Definition not_nan (x : float) : Prop := PrimFloat.is_nan x = false.

(** [lo] and [hi] bound [xs] from within. *)
Definition extremes (xs : list float) (lo hi : float) : Prop :=
  lo ∈ xs /\ hi ∈ xs
  /\ Forall (fun x => (lo <=? x)%float = true /\ (x <=? hi)%float = true) xs.

End Notions.

Module Samples.

(** A sample of [person1] at a given place. *)
Definition sampleAt (lat lng : float) : LocationItem :=
  mkLocation "2024-01-01T08:00:00Z" lat lng 0 0 0 0 0 "gps" (Some "person1").

(** Four samples of one person: the second is 111 km north of the first; the
    third and the fourth are 83.25 km east and west of the second. *)
Definition fourSamples : list LocationItem :=
  [sampleAt 0 0; sampleAt 1 0; sampleAt 1 0.75; sampleAt 1 (-0.75)].

(** A sample of person [p] at time [t]. *)
Definition timedSample (p t : string) : LocationData :=
  mkLocation t 32 34 0 0 0 0 0 "gps" (Some p).

(** A response with one sample of [person1] at 08:00 and one of [person2]
    at 09:00. *)
Definition twoPersons : LocationResponse :=
  mkResponse None (Some ["person1"; "person2"]) None
    [timedSample "person1" "2024-01-01T08:00:00Z"; timedSample "person2" "2024-01-01T09:00:00Z"]
    "" None None.

Definition onePerson : LocationResponse :=
  mkResponse None (Some ["person1"]) None
    [timedSample "person1" "2024-01-01T08:00:00Z"] "" None None.

(** Ten samples of two persons, one every hour from 00:00. *)
Definition tenSamples : LocationResponse :=
  mkResponse None (Some ["person1"; "person2"]) None
    [ timedSample "person1" "2024-01-01T03:00:00Z"; timedSample "person2" "2024-01-01T00:00:00Z";
      timedSample "person1" "2024-01-01T01:00:00Z"; timedSample "person2" "2024-01-01T02:00:00Z";
      timedSample "person1" "2024-01-01T09:00:00Z"; timedSample "person2" "2024-01-01T04:00:00Z";
      timedSample "person1" "2024-01-01T05:00:00Z"; timedSample "person2" "2024-01-01T08:00:00Z";
      timedSample "person1" "2024-01-01T07:00:00Z"; timedSample "person2" "2024-01-01T06:00:00Z" ]
    "" None None.

Definition personSample (p : option string) : LocationData :=
  mkLocation "2024-01-01T08:00:00Z" 32 34 0 0 0 0 0 "gps" p.

Definition resultAB : LocationResponse :=
  mkResponse None (Some ["A"; "B"]) None
    [personSample (Some "A"); personSample (Some "B"); personSample (Some "A")] "" None None.

Definition resultAC : LocationResponse :=
  mkResponse None (Some ["A"; "C"]) None
    [personSample (Some "C"); personSample (Some "A")] "" None None.

(** A result whose only sample belongs to a person called [toString]. *)
Definition resultInherited : LocationResponse :=
  mkResponse None None None [personSample (Some "toString")] "" None None.

(** A response told apart by its summary. *)
Definition answer (text : string) : LocationResponse :=
  mkResponse (Some "person1") None None [] text None None.

Definition threePoints : LocationResponse :=
  mkResponse None None None
    [ mkLocation "2024-01-01T08:00:00Z" 1 2 0 0 0 0 0 "gps" (Some "person1");
      mkLocation "2024-01-01T09:00:00Z" 3 (-4) 0 0 0 0 0 "gps" (Some "person2");
      mkLocation "2024-01-01T10:00:00Z" 2 8 0 0 0 0 0 "gps" (Some "person1") ]
    "" None None.

End Samples.

Module MoreNotions.
Import Clustering Visibility Layers Page.

(** A sample whose latitude or longitude is [NaN]. *)
Definition nan_coordinate (l : LocationItem) : bool :=
  PrimFloat.is_nan (latitude l) || PrimFloat.is_nan (longitude l).

(** The samples of key [k], in order, as a group: absent when there are
    none. *)
Definition groupOf (r : LocationResponse) (k : string) (l : list LocationData)
    : option (list LocationData) :=
  match filter (fun location => personKey r location = k) l with
  | [] => None
  | g => Some g
  end.

(** The sum of the sizes of the groups, the numbers the panel shows beside
    the persons. *)
Definition sampleCount (groups : gmap string (list LocationData)) : nat :=
  map_fold (fun _ locs n => length locs + n) 0 groups.

(** The ten decimal digits. *)
Definition digitChars : list ascii :=
  ["0"; "1"; "2"; "3"; "4"; "5"; "6"; "7"; "8"; "9"]%char.

(** [person] followed by a digit stands in [p] right after the prefix
    [pre]. *)
Definition occurrence (p pre : string) : Prop :=
  exists (d : ascii) (rest : string),
    Color.is_digit d = true /\ p = pre +:+ "person" +:+ String d rest.

(** [rest] does not start with a digit. *)
Definition no_digit_ahead (rest : string) : Prop :=
  match rest with
  | String c _ => Color.is_digit c = false
  | EmptyString => True
  end.

(** The number of samples that a drawn element stands for. *)
Definition represented (d : drawn) : nat :=
  match d with
  | PersonMarker _ _ _ _ => 1
  | ClusterBadge _ count _ => count
  end.

(** A single marker whose timestamp denotes no date. *)
Definition undated (dateValue : string -> float) (l : LocationData) : Prop :=
  PrimFloat.is_nan (dateValue (timestamp l)) = true.

(** The directory request ends in the [catch] block: the [fetch] is
    rejected, or the body of a success response cannot be decoded or is
    [null]. *)
Definition requestThrows (o : Directory.outcome) : Prop :=
  o = Directory.Rejected
  \/ o = Directory.Response true Directory.Undecodable
  \/ o = Directory.Response true Directory.Null.

(** A [fetch] that does not end in a success response with a decoded
    body. *)
Definition failed (o : outcome) : bool :=
  match o with
  | Response true (Some _) => false
  | _ => true
  end.

(** The event is the settling of a call in failure. *)
Definition failedEvent (e : event) : bool :=
  match e with
  | Settle _ o => failed o
  | Submit _ => false
  end.

(** The number of calls of a trace that settled in failure. *)
Definition failures (trace : list event) : nat :=
  length (filter (fun e => failedEvent e = true) trace).

End MoreNotions.

(** * Properties *)

(** ** The order of binary64 numbers *)

Module FloatFacts.

Local Ltac cmp_cases :=
  repeat match goal with
  | H : context [Z.compare ?x ?y] |- _ => destruct (Z.compare_spec x y)
  | |- context [Z.compare ?x ?y] => destruct (Z.compare_spec x y)
  | H : context [Pos.compare_cont Eq ?x ?y] |- _ =>
      change (Pos.compare_cont Eq x y) with (Pos.compare x y) in *;
      destruct (Pos.compare_spec x y)
  | |- context [Pos.compare_cont Eq ?x ?y] =>
      change (Pos.compare_cont Eq x y) with (Pos.compare x y) in *;
      destruct (Pos.compare_spec x y)
  end.

Lemma SFleb_trans (a b c : spec_float) :
  SFleb a b = true -> SFleb b c = true -> SFleb a c = true.
Proof.
  unfold SFleb, SFcompare.
  destruct a as [[]|[]| |[] m1 e1], b as [[]|[]| |[] m2 e2], c as [[]|[]| |[] m3 e3];
    try done; intros H1 H2; cmp_cases; simpl in *; try done; lia.
Qed.

Lemma SFltb_leb (a b : spec_float) : SFltb a b = true -> SFleb a b = true.
Proof.
  unfold SFltb, SFleb. by destruct (SFcompare a b) as [[]|].
Qed.

Lemma SFleb_of_not_ltb (a b : spec_float) :
  a <> S754_nan -> b <> S754_nan -> SFltb a b = false -> SFleb b a = true.
Proof.
  unfold SFleb, SFltb, SFcompare.
  destruct a as [[]|[]| |[] m1 e1], b as [[]|[]| |[] m2 e2];
    try done; intros _ _ H; cmp_cases; simpl in *; try done; lia.
Qed.

Lemma SFeqb_refl (a : spec_float) : a <> S754_nan -> SFeqb a a = true.
Proof.
  unfold SFeqb, SFcompare. destruct a as [[]|[]| |[] m e]; try done; intros _;
    rewrite Z.compare_refl; change (Pos.compare_cont Eq m m) with (Pos.compare m m);
    by rewrite Pos.compare_refl.
Qed.

Lemma is_nan_false (x : float) : PrimFloat.is_nan x = false -> Prim2SF x <> S754_nan.
Proof.
  unfold PrimFloat.is_nan. rewrite FloatAxioms.eqb_spec. intros H Hn.
  rewrite Hn in H. discriminate.
Qed.

(** [<=] on numbers is transitive. *)
Lemma leb_trans (x y z : float) :
  (x <=? y)%float = true -> (y <=? z)%float = true -> (x <=? z)%float = true.
Proof. rewrite !FloatAxioms.leb_spec. apply SFleb_trans. Qed.

Lemma ltb_leb (x y : float) : (x <? y)%float = true -> (x <=? y)%float = true.
Proof. rewrite FloatAxioms.ltb_spec, FloatAxioms.leb_spec. apply SFltb_leb. Qed.

(** Two numbers that are not [NaN] are comparable. *)
Lemma leb_of_not_ltb (x y : float) :
  PrimFloat.is_nan x = false -> PrimFloat.is_nan y = false ->
  (x <? y)%float = false -> (y <=? x)%float = true.
Proof.
  rewrite FloatAxioms.ltb_spec, FloatAxioms.leb_spec. intros Hx Hy.
  apply SFleb_of_not_ltb; by apply is_nan_false.
Qed.

Lemma leb_refl (x : float) : PrimFloat.is_nan x = false -> (x <=? x)%float = true.
Proof.
  intros Hx. rewrite FloatAxioms.leb_spec. apply is_nan_false in Hx.
  pose proof (SFeqb_refl _ Hx) as H. unfold SFeqb, SFleb in *.
  by destruct (SFcompare _ _) as [[]|].
Qed.

End FloatFacts.

(** ** Clustering *)

Module ClusteringFacts.
Import Clustering Notions Samples.

(** *** Proof of the refinement *)

Lemma forEach_app {A St : Type} (f : St -> A -> nat -> St) (l1 l2 : list A) (i : nat) (s : St) :
  forEach f (l1 ++ l2) i s = forEach f l2 (i + length l1) (forEach f l1 i s).
Proof.
  revert i s. induction l1 as [|x l1 IH]; intros i s; simpl.
  - by rewrite Nat.add_0_r.
  - rewrite IH. f_equal. lia.
Qed.

Lemma unprocessed_ext (P Q : gset nat) (k : nat) (l : list LocationItem) :
  (forall j, k <= j -> (j ∈ P <-> j ∈ Q)) ->
  unprocessed P k l = unprocessed Q k l.
Proof.
  revert k. induction l as [|x l IH]; intros k H; simpl; [done|].
  rewrite (IH (S k)) by (intros j Hj; apply H; lia).
  rewrite (bool_decide_ext (k ∈ P) (k ∈ Q)) by (apply H; lia).
  done.
Qed.

Lemma unprocessed_empty (k : nat) (l : list LocationItem) : unprocessed ∅ k l = l.
Proof.
  revert k. induction l as [|x l IH]; intros k; simpl; [done|].
  rewrite bool_decide_eq_false_2 by set_solver. by rewrite IH.
Qed.

Section Inner.
Variables (t : float) (location : LocationItem) (index : nat).

  (** Indices that are the seed's or already processed are left alone. *)
Lemma inner_skip (l : list LocationItem) (k : nat) (members : list LocationItem) (P : gset nat) :
    (forall j, k <= j < k + length l -> j = index \/ j ∈ P) ->
    forEach (inner t location index) l k (members, P) = (members, P).
  Proof.
    revert k. induction l as [|x l IH]; intros k H; simpl; [done|].
    assert (Hk : bool_decide (k = index) || bool_decide (k ∈ P) = true).
    { destruct (H k) as [->| Hin]; [simpl; lia| |].
      - by rewrite bool_decide_eq_true_2.
      - rewrite (bool_decide_eq_true_2 (k ∈ P)) by done. apply orb_true_r. }
    rewrite Hk. apply IH. intros j Hj. apply H. simpl. lia.
  Qed.

  (** Past the seed, the scan collects exactly the unprocessed samples that
      pass the test, and marks exactly those. *)
Lemma inner_scan (l : list LocationItem) (k : nat) (members : list LocationItem) (P : gset nat) :
    index < k ->
    exists P' : gset nat,
      forEach (inner t location index) l k (members, P)
        = (members ++ filter (fun s => joins t location s = true) (unprocessed P k l), P')
      /\ P ⊆ P'
      /\ (forall j, j ∈ P' -> j ∈ P \/ k <= j)
      /\ unprocessed P' k l
         = filter (fun s => joins t location s <> true) (unprocessed P k l).
  Proof.
    revert k members P. induction l as [|x l IH]; intros k members P Hk; simpl.
    - exists P. rewrite app_nil_r. set_solver.
    - rewrite (bool_decide_eq_false_2 (k = index)) by lia. simpl.
      destruct (bool_decide (k ∈ P)) eqn:HkP.
      + apply bool_decide_eq_true_1 in HkP.
        destruct (IH (S k) members P) as (P' & Hrun & Hsub & Hnew & Hrest); [lia|].
        exists P'. split; [done|]. split; [done|]. split.
        * intros j Hj. destruct (Hnew j Hj); [by left | right; lia].
        * rewrite bool_decide_eq_true_2 by set_solver. done.
      + apply bool_decide_eq_false_1 in HkP.
        destruct (joins t location x) eqn:Hjoin.
        * pose proof Hjoin as Hj2. unfold joins in Hj2.
          apply andb_true_iff in Hj2 as [Hp Hd]. rewrite Hp, Hd. simpl.
          destruct (IH (S k) (members ++ [x]) ({[k]} ∪ P)) as (P' & Hrun & Hsub & Hnew & Hrest);
            [lia|].
          assert (Hext : unprocessed ({[k]} ∪ P) (S k) l = unprocessed P (S k) l).
          { apply unprocessed_ext. intros j Hj. set_unfold. split; [|by right].
            intros [->|]; [lia|done]. }
          rewrite Hext in Hrun, Hrest.
          exists P'. split.
          { rewrite Hrun, filter_cons_True by done. by rewrite <- app_assoc. }
          split; [set_solver|]. split.
          { intros j Hj. destruct (Hnew j Hj) as [Hin|]; [|right; lia].
            set_unfold. destruct Hin as [->|]; [right; lia | by left]. }
          rewrite bool_decide_eq_true_2 by set_solver.
          rewrite filter_cons_False by (intros Hn; by apply Hn). done.
        * assert (Hst : (if negb (String.eqb (personOf x) (personOf location)) then (members, P)
                         else if (distance location x <=? t)%float
                              then (members ++ [x], {[k]} ∪ P) else (members, P))
                        = (members, P)).
          { unfold joins in Hjoin. destruct (String.eqb _ _); simpl in *; [|done].
            by rewrite Hjoin. }
          rewrite Hst.
          destruct (IH (S k) members P) as (P' & Hrun & Hsub & Hnew & Hrest); [lia|].
          exists P'. split.
          { rewrite Hrun, filter_cons_False; [done|]. by rewrite Hjoin. }
          split; [done|]. split.
          { intros j Hj. destruct (Hnew j Hj); [by left | right; lia]. }
          rewrite bool_decide_eq_false_2.
          { rewrite filter_cons_True by (by rewrite Hjoin). by rewrite Hrest. }
          intros Hin. destruct (Hnew k Hin); [done | lia].
  Qed.
End Inner.

(** The outer loop, from any point where every earlier index is processed. *)
Lemma outer_greedy (t : float) (post pre : list LocationItem) (clusters : list ClusterItem)
    (P : gset nat) :
  (forall j, j < length pre -> j ∈ P) ->
  fst (forEach (outer t (pre ++ post)) post (length pre) (clusters, P))
  = clusters ++ greedyReference t (unprocessed P (length pre) post).
Proof.
  revert pre clusters P. induction post as [|x post IH]; intros pre clusters P Hpre.
  - simpl. simp greedyReference. by rewrite app_nil_r.
  - assert (Hsplit : pre ++ x :: post = (pre ++ [x]) ++ post) by (by rewrite <- app_assoc).
    assert (Hlen : S (length pre) = length (pre ++ [x])) by (rewrite length_app; simpl; lia).
    cbn [forEach unprocessed]. unfold outer at 2.
    destruct (bool_decide (length pre ∈ P)) eqn:Hin.
    + rewrite Hsplit, Hlen. apply IH. intros j Hj.
      rewrite <- Hlen in Hj. apply bool_decide_eq_true_1 in Hin.
      destruct (decide (j = length pre)) as [->|]; [done | apply Hpre; lia].
    + apply bool_decide_eq_false_1 in Hin.
      rewrite (forEach_app _ pre (x :: post)).
      rewrite inner_skip by (intros j Hj; right; apply Hpre; lia).
      cbn [forEach]. unfold inner at 2.
      rewrite (bool_decide_eq_true_2 (0 + length pre = length pre)) by lia. simpl orb. cbv iota.
      destruct (inner_scan t x (length pre) post (S (0 + length pre)) [x] P)
        as (P' & Hrun & Hsub & Hnew & Hrest); [lia|].
      rewrite Hrun. simpl Nat.add in *.
      rewrite Hsplit, Hlen, IH.
      * rewrite <- Hlen. simp greedyReference. rewrite <- app_assoc. simpl. do 3 f_equal.
        rewrite <- Hrest. apply unprocessed_ext. intros j Hj. set_unfold.
        split; [intros [->|]; [lia|done] | by right].
      * intros j Hj. rewrite <- Hlen in Hj.
        destruct (decide (j = length pre)) as [->|]; [set_solver|].
        apply elem_of_union_r, Hsub, Hpre. lia.
Qed.

(** [clusterLocations] computes the greedyReference clustering. *)
Lemma clusterLocations_greedy (locations : list LocationItem) (t : float) :
  clusterLocations locations t = greedyReference t locations.
Proof.
  unfold clusterLocations.
  pose proof (outer_greedy t locations [] [] ∅) as H. simpl in H.
  rewrite H by (intros j Hj; lia). by rewrite unprocessed_empty.
Qed.

(** *** Facts about the greedyReference clustering *)

Lemma greedy_coverage (t : float) (samples : list LocationItem) :
  concat (map cluster_locations (greedyReference t samples)) ≡ₚ samples.
Proof.
  funelim (greedyReference t samples); simp greedyReference; [done|].
  simpl. constructor. rewrite H. apply filter_app_complement.
Qed.

Lemma greedy_nonempty (t : float) (samples : list LocationItem) :
  Forall (fun c => cluster_locations c <> []) (greedyReference t samples).
Proof.
  funelim (greedyReference t samples); simp greedyReference; constructor; [done|assumption].
Qed.

Lemma greedy_seeded (t : float) (samples : list LocationItem) :
  Forall (seeded t) (greedyReference t samples).
Proof.
  funelim (greedyReference t samples); simp greedyReference; constructor; [|assumption].
  exists seed, (filter (fun s => joins t seed s = true) rest). simpl.
  repeat split. apply Forall_forall. intros m Hm.
  by apply list_elem_of_filter in Hm as [Hm _].
Qed.

Lemma length_concat_clusters (cs : list ClusterItem) :
  length (concat (map cluster_locations cs))
  = sum_list (map (fun c => length (cluster_locations c)) cs).
Proof.
  induction cs as [|c cs IH]; simpl; [done|]. rewrite length_app, IH. done.
Qed.

Lemma filter_sublist_mono {A : Type} (P Q : A -> Prop)
    `{forall x, Decision (P x)} `{forall x, Decision (Q x)} (l : list A) :
  (forall x, P x -> Q x) -> filter P l `sublist_of` filter Q l.
Proof.
  intros HPQ. induction l as [|x l IH]; [constructor|].
  rewrite !filter_cons. destruct (decide (P x)) as [HP|HP].
  - rewrite decide_True by auto. by constructor.
  - destruct (decide (Q x)); [by constructor | done].
Qed.

Lemma joins_mono (t1 t2 : float) (seed s : LocationItem) :
  (t1 <=? t2)%float = true -> joins t1 seed s = true -> joins t2 seed s = true.
Proof.
  unfold joins. intros Ht H. apply andb_true_iff in H as [Hp Hd].
  rewrite Hp. simpl. by apply FloatFacts.leb_trans with t1.
Qed.

(** Two samples about 1.5 m apart are one cluster at the default threshold
    and two clusters at threshold 0. *)
Example clusterLocations_close_pair :
  clusterSizes (clusterLocations [sampleAt 32.0 34.7; sampleAt 32.00001 34.70001]
                                 defaultThreshold) = [2]
  /\ clusterSizes (clusterLocations [sampleAt 32.0 34.7; sampleAt 32.00001 34.70001] 0) = [1; 1].
Proof. vm_compute. split; reflexivity. Qed.

(** *** The claims about [clusterLocations] *)

(** C1. For every list of samples and every threshold, the clusters of
    [clusterLocations] cover the samples exactly once: the members of all
    the clusters, put together, are a rearrangement of the input (so each
    occurrence of a sample is in exactly one cluster), no cluster is empty,
    and the cluster sizes add up to the number of samples. *)
Theorem clusterLocations_covers (locations : list LocationItem) (distanceThreshold : float) :
  concat (map cluster_locations (clusterLocations locations distanceThreshold)) ≡ₚ locations
  /\ Forall (fun c => cluster_locations c <> []) (clusterLocations locations distanceThreshold)
  /\ sum_list (map (fun c => length (cluster_locations c))
                   (clusterLocations locations distanceThreshold))
     = length locations.
Proof.
  rewrite clusterLocations_greedy. split; [apply greedy_coverage|].
  split; [apply greedy_nonempty|].
  rewrite <- length_concat_clusters. apply Permutation_length, greedy_coverage.
Qed.

(** C2. [clusterLocations] is the single-pass greedyReference algorithm: its result
    is that of [greedyReference]; every cluster is its seed followed by samples of the
    seed's person within the threshold of the seed, with the seed's
    coordinate as centre; and one sample alone gives one cluster holding it,
    centred on it. *)
Theorem clusterLocations_is_greedy (locations : list LocationItem) (distanceThreshold : float) :
  clusterLocations locations distanceThreshold = greedyReference distanceThreshold locations
  /\ Forall (seeded distanceThreshold) (clusterLocations locations distanceThreshold)
  /\ forall s : LocationItem,
       clusterLocations [s] distanceThreshold
       = [mkCluster [s] (latitude s, longitude s) (or_else (person s) "unknown")].
Proof.
  split; [apply clusterLocations_greedy|].
  split; [rewrite clusterLocations_greedy; apply greedy_seeded|].
  intros s. rewrite clusterLocations_greedy. by simp greedyReference.
Qed.

(** C3 fails as stated: raising the threshold from 100 km to 120 km lets the
    first sample take the second, which no longer gathers the third and the
    fourth; the clusters go from two (sizes 1 and 3) to three (sizes 2, 1
    and 1). *)
Lemma threshold_monotonicity_counterexample :
  (100000 <=? 120000)%float = true
  /\ clusterSizes (clusterLocations fourSamples 100000) = [1; 3]
  /\ clusterSizes (clusterLocations fourSamples 120000) = [2; 1; 1]
  /\ length (clusterLocations fourSamples 100000)
     < length (clusterLocations fourSamples 120000).
Proof. vm_compute. repeat split; lia. Qed.

(** C3, amended. For thresholds [t1 <= t2], the first cluster (the one
    seeded by the first sample) under [t2] contains the members of the first
    cluster under [t1], in the same order, has the same centre, and so is
    never smaller. *)
Theorem first_cluster_monotone (locations : list LocationItem) (t1 t2 : float)
    (c1 : ClusterItem) :
  (t1 <=? t2)%float = true ->
  head (clusterLocations locations t1) = Some c1 ->
  exists c2 : ClusterItem,
    head (clusterLocations locations t2) = Some c2
    /\ cluster_locations c1 `sublist_of` cluster_locations c2
    /\ length (cluster_locations c1) <= length (cluster_locations c2)
    /\ cluster_center c2 = cluster_center c1.
Proof.
  intros Ht. rewrite !clusterLocations_greedy.
  destruct locations as [|seed rest]; simp greedyReference; [done|].
  simpl. intros [= <-]. eexists. split; [done|]. simpl.
  assert (Hsub : filter (fun s => joins t1 seed s = true) rest
                 `sublist_of` filter (fun s => joins t2 seed s = true) rest).
  { apply filter_sublist_mono. intros s. by apply joins_mono. }
  split; [by constructor|]. split; [|done].
  apply sublist_length in Hsub. lia.
Qed.

(** The amended C3 on the four samples, at 100 km and 120 km. *)
Lemma first_cluster_monotone_witness :
  (100000 <=? 120000)%float = true
  /\ head (clusterLocations fourSamples 100000)
     = Some (mkCluster [sampleAt 0 0] (0%float, 0%float) "person1")
  /\ exists c2 : ClusterItem,
       head (clusterLocations fourSamples 120000) = Some c2
       /\ [sampleAt 0 0] `sublist_of` cluster_locations c2
       /\ 1 <= length (cluster_locations c2)
       /\ cluster_center c2 = (0%float, 0%float).
Proof.
  split; [reflexivity|]. split; [vm_compute; reflexivity|].
  apply (first_cluster_monotone fourSamples 100000 120000
           (mkCluster [sampleAt 0 0] (0%float, 0%float) "person1"));
    vm_compute; reflexivity.
Defined.

End ClusteringFacts.

(** ** Colour assignment *)

Module ColorFacts.
Import Color MoreNotions.

Lemma append_cons (a : ascii) (s t : string) : String a s +:+ t = String a (s +:+ t).
Proof. reflexivity. Qed.

Lemma append_empty (t : string) : "" +:+ t = t.
Proof. reflexivity. Qed.

Lemma append_inj_l (pfx s t : string) : pfx +:+ s = pfx +:+ t -> s = t.
Proof.
  induction pfx as [|a pfx IH]; [done|]. rewrite !append_cons. intros [= H]. by apply IH.
Qed.

Lemma digits_all (s : string) :
  Forall (fun c => is_digit c = true) (list_ascii_of_string (digits s)).
Proof.
  induction s as [|c s IH]; simpl; [constructor|].
  destruct (is_digit c) eqn:Hc; simpl; [by constructor | constructor].
Qed.

(** A match captures a non-empty run of digits. *)
Lemma match_person_digits (p ds : string) :
  match_person p = Some ds ->
  ds <> "" /\ Forall (fun c => is_digit c = true) (list_ascii_of_string ds).
Proof.
  induction p as [|a p IH]; [done|].
  cbn [match_person]. destruct (strip_prefix "person" (String a p)) as [r|]; [|exact IH].
  destruct (digits r) as [|d ds'] eqn:Hd; [exact IH|].
  intros [= <-]. split; [done|]. rewrite <- Hd. apply digits_all.
Qed.

Lemma mathInt_from_nonneg (l : list ascii) (acc : Z) :
  Forall (fun c => is_digit c = true) l -> (0 <= acc)%Z ->
  (0 <= fold_left (fun acc c => 10 * acc + (Z.of_nat (nat_of_ascii c) - 48)) l acc)%Z.
Proof.
  intros Hl. revert acc. induction Hl as [|c l Hc _ IH]; intros acc Hacc; simpl; [done|].
  apply IH. unfold is_digit in Hc. apply andb_true_iff in Hc as [H1 H2].
  apply Nat.leb_le in H1. lia.
Qed.

Lemma mathInt_nonneg (p ds : string) :
  match_person p = Some ds -> (0 <= mathInt ds)%Z.
Proof.
  intros H. apply match_person_digits in H as [_ H].
  by apply mathInt_from_nonneg.
Qed.

Lemma is_digit_spec (c : ascii) : is_digit c = true <-> c ∈ digitChars.
Proof.
  assert (H : is_digit c = bool_decide (c ∈ digitChars))
    by (destruct c as [[] [] [] [] [] [] [] []]; vm_compute; reflexivity).
  rewrite H. apply bool_decide_eq_true.
Qed.

(** The number of a string of digits, read from the left: one more digit
    multiplies by ten and adds the digit. *)
Lemma mathInt_snoc (ds : string) (c : ascii) :
  mathInt (ds +:+ String c "") = (10 * mathInt ds + (Z.of_nat (nat_of_ascii c) - 48))%Z.
Proof.
  unfold mathInt.
  assert (H : list_ascii_of_string (ds +:+ String c "") = list_ascii_of_string ds ++ [c]).
  { induction ds as [|a ds IH]; [done|]. rewrite append_cons. simpl. by rewrite IH. }
  rewrite H, fold_left_app. done.
Qed.

(** [strip_prefix] succeeds on the strings that start with the prefix. *)
Lemma strip_prefix_spec (pfx s r : string) :
  strip_prefix pfx s = Some r <-> s = pfx +:+ r.
Proof.
  revert s. induction pfx as [|a pfx IH]; intros s.
  - rewrite append_empty. simpl. split; congruence.
  - rewrite append_cons. destruct s as [|b s]; simpl; [split; discriminate|].
    destruct (Ascii.eqb_spec a b) as [->|Hne].
    + rewrite IH. split; congruence.
    + split; [discriminate | intros [= ? _]; congruence].
Qed.

(** [digits] splits a string into its leading digits and a rest that starts
    with none. *)
Lemma digits_split (s : string) :
  exists rest : string, s = digits s +:+ rest /\ no_digit_ahead rest.
Proof.
  induction s as [|c s (rest & Hs & Hr)]; [by exists ""|].
  simpl. destruct (is_digit c) eqn:Hc.
  - exists rest. rewrite append_cons, <- Hs. done.
  - exists (String c s). split; [done | exact Hc].
Qed.

Lemma digits_append (ds rest : string) :
  Forall (fun c => is_digit c = true) (list_ascii_of_string ds) -> no_digit_ahead rest ->
  digits (ds +:+ rest) = ds.
Proof.
  intros Hds Hr. induction ds as [|c ds IH].
  - rewrite append_empty. destruct rest as [|c rest]; simpl; [done|].
    simpl in Hr. by rewrite Hr.
  - rewrite append_cons. simpl in Hds. inversion Hds as [|? ? Hc Hrest]; subst.
    simpl. by rewrite Hc, IH.
Qed.

Lemma occurrence_empty (pre : string) : ~ occurrence "" pre.
Proof.
  intros (d & rest & _ & H). destruct pre; [|by rewrite append_cons in H].
  rewrite append_empty in H. change ("" = String "p" ("erson" +:+ String d rest)) in H.
  discriminate.
Qed.

(** An occurrence at the start is what the first step of the search finds. *)
Lemma occurrence_here (s : string) :
  occurrence s "" <-> exists r : string, strip_prefix "person" s = Some r /\ digits r <> "".
Proof.
  split.
  - intros (d & rest & Hd & ->). exists (String d rest). split.
    + by apply strip_prefix_spec.
    + simpl. by rewrite Hd.
  - intros (r & Hr & Hne). apply strip_prefix_spec in Hr as ->.
    destruct r as [|d rest]; [done|]. simpl in Hne.
    destruct (is_digit d) eqn:Hd; [|done]. by exists d, rest.
Qed.

Lemma occurrence_later (a b : ascii) (s pre : string) :
  occurrence (String a s) (String b pre) <-> a = b /\ occurrence s pre.
Proof.
  split.
  - intros (d & rest & Hd & H). rewrite append_cons in H. injection H as -> ->.
    split; [done|]. by exists d, rest.
  - intros [-> (d & rest & Hd & ->)]. exists d, rest. by rewrite append_cons.
Qed.

(** One step of the search: either the pattern stands at the start and its
    digits are captured, or the search goes on one character later. *)
Lemma match_person_step (a : ascii) (s : string) :
  (occurrence (String a s) ""
   /\ exists r : string,
        String a s = "person" +:+ r /\ match_person (String a s) = Some (digits r))
  \/ (~ occurrence (String a s) "" /\ match_person (String a s) = match_person s).
Proof.
  cbn [match_person]. destruct (strip_prefix "person" (String a s)) as [r|] eqn:Hr.
  - destruct (digits r) as [|d ds] eqn:Hd.
    + right. split; [|done]. rewrite occurrence_here. intros (r' & Hr' & Hne). congruence.
    + left. split.
      * apply occurrence_here. exists r. by rewrite Hd.
      * exists r. split; [by apply strip_prefix_spec | by rewrite Hd].
  - right. split; [|done]. rewrite occurrence_here. intros (r' & Hr' & _). congruence.
Qed.

(** The search fails exactly on the identifiers in which [person] is
    nowhere followed by a digit. *)
Lemma match_person_None (p : string) :
  match_person p = None <-> forall pre : string, ~ occurrence p pre.
Proof.
  induction p as [|a p IH].
  - split; [intros _ pre; apply occurrence_empty | done].
  - destruct (match_person_step a p) as [[Hocc (r & _ & ->)]|[Hno ->]].
    + split; [done | intros H; by destruct (H "")].
    + rewrite IH. split.
      * intros H [|b pre]; [done|]. rewrite occurrence_later. intros [_ Hpre]. by apply (H pre).
      * intros H pre Hpre. apply (H (String a pre)). by apply occurrence_later.
Qed.

(** What the search captures is the longest run of digits after the
    leftmost [person] that is followed by a digit. *)
Lemma match_person_Some (p ds : string) :
  match_person p = Some ds ->
  exists pre rest : string,
    p = pre +:+ "person" +:+ ds +:+ rest
    /\ no_digit_ahead rest
    /\ forall pre' : string, occurrence p pre' -> String.length pre <= String.length pre'.
Proof.
  revert ds. induction p as [|a p IH]; intros ds; [done|].
  destruct (match_person_step a p) as [[Hocc (r & Hr & ->)]|[Hno ->]].
  - intros [= <-]. destruct (digits_split r) as (rest & Hsplit & Hrest).
    exists "", rest. split; [by rewrite append_empty, <- Hsplit|].
    split; [done|]. intros pre' _. simpl. lia.
  - intros Hm. destruct (IH ds Hm) as (pre & rest & -> & Hrest & Hleft).
    exists (String a pre), rest. split; [by rewrite append_cons|]. split; [done|].
    intros [|b pre']; [done|]. rewrite occurrence_later. intros [_ Hpre].
    simpl. apply le_n_S. by apply Hleft.
Qed.

Lemma match_person_leftmost (pre ds rest : string) :
  ds <> "" -> Forall (fun c => is_digit c = true) (list_ascii_of_string ds) ->
  no_digit_ahead rest ->
  (forall pre' : string,
     occurrence (pre +:+ "person" +:+ ds +:+ rest) pre' ->
     String.length pre <= String.length pre') ->
  match_person (pre +:+ "person" +:+ ds +:+ rest) = Some ds.
Proof.
  intros Hne Hds Hrest. induction pre as [|a pre IH]; intros Hleft.
  - rewrite append_empty.
    change (match_person (String "p" ("erson" +:+ ds +:+ rest)) = Some ds).
    destruct (match_person_step "p" ("erson" +:+ ds +:+ rest)) as [[_ (r & Hr & ->)]|[Hno _]].
    + change (String "p" ("erson" +:+ ds +:+ rest)) with ("person" +:+ (ds +:+ rest)) in Hr.
      apply append_inj_l in Hr as <-. by rewrite digits_append.
    + exfalso. apply Hno. destruct ds as [|d ds]; [done|].
      simpl in Hds. inversion Hds; subst. by exists d, (ds +:+ rest).
  - rewrite append_cons.
    destruct (match_person_step a (pre +:+ "person" +:+ ds +:+ rest)) as [[Hocc _]|[_ ->]].
    + rewrite <- append_cons in Hocc. apply Hleft in Hocc. simpl in Hocc. lia.
    + apply IH. intros pre' Hpre'.
      assert (Hshift : occurrence (String a pre +:+ "person" +:+ ds +:+ rest) (String a pre'))
        by (rewrite append_cons; by apply occurrence_later).
      apply Hleft in Hshift. simpl in Hshift. lia.
Qed.

(** The identifiers [personN]: the pattern captures [N]'s digits. *)
Lemma match_person_personN (ds : string) :
  ds <> "" -> Forall (fun c => is_digit c = true) (list_ascii_of_string ds) ->
  match_person ("person" +:+ ds) = Some ds.
Proof.
  intros Hne Hds.
  change (match_person
            (String "p" (String "e" (String "r" (String "s" (String "o" (String "n" ds))))))
          = Some ds).
  cbn.
  assert (Hd : digits ds = ds).
  { clear Hne. induction ds as [|c ds IH]; [done|].
    simpl in *. inversion Hds as [|? ? Hc Hrest]; subst. by rewrite Hc, IH. }
  rewrite Hd. by destruct ds.
Qed.

Lemma at_index_colors (i : Z) :
  (0 <= i < 10)%Z -> exists c, at_index colors i = Some c /\ c ∈ colors.
Proof.
  intros Hi. unfold at_index. rewrite (proj2 (Z.ltb_ge i 0)) by lia.
  destruct (lookup_lt_is_Some_2 colors (Z.to_nat i)) as [c Hc]; [simpl; lia|].
  exists c. split; [done|]. by eapply list_elem_of_lookup_2.
Qed.

(** Below [2^53] an integer is its own double. *)
Lemma toNumber_small (z : Z) : (Z.abs z < 2 ^ 53)%Z -> toNumber z = Integer z.
Proof. intros H. unfold toNumber. by rewrite (proj2 (Z.ltb_lt _ _) H). Qed.

Lemma getPersonColor_matched (p ds : string) :
  match_person p = Some ds ->
  getPersonColor (Some p) = at_number colors (remainder (minus (parseInt ds) 1) 10).
Proof.
  intros H. unfold getPersonColor. rewrite H.
  destruct p; [done|]. done.
Qed.

(** The arithmetic of [getPersonColor] is exact for a captured number below
    [2^53]. *)
Lemma getPersonColor_small (p ds : string) :
  match_person p = Some ds -> (0 <= mathInt ds < 2 ^ 53)%Z ->
  getPersonColor (Some p) = at_index colors (Z.rem (mathInt ds - 1) 10).
Proof.
  intros H HN. rewrite (getPersonColor_matched p ds H). unfold parseInt.
  rewrite toNumber_small by lia. unfold minus. rewrite toNumber_small by lia. done.
Qed.

(** C8, as the claim words it, fails in three places.  The index is computed
    on doubles: the number of ["person9007199254740993"] is [2^53 + 1], whose
    double is [2^53], so the identifier gets entry 1 of the palette where
    [(N - 1) mod 10] is 2.  The pattern is searched anywhere in the
    identifier: ["xperson3y"], which has no numeric suffix, gets entry 2 and
    not entry 0.  And an entry of the override table is used only when it is
    truthy: the empty string held for ["person1"] is not returned, the
    palette colour is. *)
Lemma color_assignment_counterexample :
  match_person "person9007199254740993" = Some "9007199254740993"
  /\ mathInt "9007199254740993" = 9007199254740993%Z
  /\ ((9007199254740993 - 1) mod 10 = 2)%Z
  /\ colors !! 2 = Some "#10B981"
  /\ getPersonColor (Some "person9007199254740993") = Some "#EF4444"
  /\ getPersonColorFromResponse
       (Some (mkResponse None None None [] "" None (Some ∅)))
       (Some "person9007199254740993")
     = Str "#EF4444"
  /\ Str "#EF4444" <> Str "#10B981"
  /\ colors !! 0 = Some "#3B82F6"
  /\ getPersonColor (Some "xperson3y") = Some "#10B981"
  /\ Some "#10B981" <> Some "#3B82F6"
  /\ getPersonColorFromResponse
       (Some (mkResponse None None None [] "" None (Some {[ "person1" := "" ]})))
       (Some "person1")
     = Str "#3B82F6"
  /\ Str "#3B82F6" <> Str "".
Proof.
  split; [vm_compute; reflexivity|]. split; [vm_compute; reflexivity|].
  split; [reflexivity|]. split; [reflexivity|].
  split; [vm_compute; reflexivity|]. split; [vm_compute; reflexivity|].
  split; [discriminate|]. split; [reflexivity|]. split; [vm_compute; reflexivity|].
  split; [discriminate|]. split; [vm_compute; reflexivity | discriminate].
Qed.

(** C8, amended.  Colour assignment is a function of the identifier and the
    override table.  A non-empty colour that the table holds for a non-empty
    identifier is returned as it is.  Without a table, or with an empty
    entry, or without an entry for an identifier that names no member of
    [Object.prototype], the colour is [getPersonColor]'s.  That function
    searches the identifier for the leftmost [person] followed by a digit and
    reads the number [N] of the longest run of decimal digits there: it finds
    nothing exactly when there is no such place, and otherwise captures those
    digits, which are read in base ten.  For [1 <= N < 2^53] the colour is
    entry [(N - 1) mod 10] of the palette of ten distinct colours, so [N] and
    [N + 10] get the same colour while both are below [2^53]; an identifier
    without such a place gets entry 0; an absent or empty identifier gets the
    gray, whatever the table.  So ["person3"] with an empty table gets the
    third entry, and ["person1"] with [{person1: "#ABCDEF"}] gets
    ["#ABCDEF"]. *)
Theorem color_assignment :
  (forall (r : LocationResponse) (table : gmap string string) (p c : string),
     person_colors r = Some table -> table !! p = Some c -> p <> "" -> c <> "" ->
     getPersonColorFromResponse (Some r) (Some p) = Str c)
  /\ (forall (r : LocationResponse) (table : gmap string string) (p : string),
        person_colors r = Some table -> table !! p = None -> inherited p = false ->
        getPersonColorFromResponse (Some r) (Some p) = of_option (getPersonColor (Some p)))
  /\ (forall (r : LocationResponse) (p : string),
        person_colors r = None ->
        getPersonColorFromResponse (Some r) (Some p) = of_option (getPersonColor (Some p))
        /\ getPersonColorFromResponse None (Some p) = of_option (getPersonColor (Some p)))
  /\ (forall c : ascii, is_digit c = true <-> c ∈ digitChars)
  /\ (mathInt "" = 0%Z
      /\ forall (ds : string) (c : ascii),
           mathInt (ds +:+ String c "")
           = (10 * mathInt ds + (Z.of_nat (nat_of_ascii c) - 48))%Z)
  /\ (forall p : string,
        match_person p = None <-> forall pre : string, ~ occurrence p pre)
  /\ (forall p ds : string,
        match_person p = Some ds ->
        ds <> "" /\ Forall (fun c => is_digit c = true) (list_ascii_of_string ds)
        /\ exists pre rest : string,
             p = pre +:+ "person" +:+ ds +:+ rest
             /\ no_digit_ahead rest
             /\ forall pre' : string,
                  occurrence p pre' -> String.length pre <= String.length pre')
  /\ (forall pre ds rest : string,
        ds <> "" -> Forall (fun c => is_digit c = true) (list_ascii_of_string ds) ->
        no_digit_ahead rest ->
        (forall pre' : string,
           occurrence (pre +:+ "person" +:+ ds +:+ rest) pre' ->
           String.length pre <= String.length pre') ->
        match_person (pre +:+ "person" +:+ ds +:+ rest) = Some ds
        /\ ((1 <= mathInt ds < 2 ^ 53)%Z ->
            getPersonColor (Some (pre +:+ "person" +:+ ds +:+ rest))
            = colors !! Z.to_nat ((mathInt ds - 1) mod 10)))
  /\ (forall (p ds : string),
        match_person p = Some ds -> (1 <= mathInt ds < 2 ^ 53)%Z ->
        exists c : string,
          getPersonColor (Some p) = Some c
          /\ colors !! Z.to_nat ((mathInt ds - 1) mod 10) = Some c)
  /\ (forall ds : string,
        ds <> "" -> Forall (fun c => is_digit c = true) (list_ascii_of_string ds) ->
        (1 <= mathInt ds < 2 ^ 53)%Z ->
        getPersonColor (Some ("person" +:+ ds))
        = colors !! Z.to_nat ((mathInt ds - 1) mod 10))
  /\ (forall (p q ds es : string),
        match_person p = Some ds -> match_person q = Some es ->
        (1 <= mathInt ds)%Z -> mathInt es = (mathInt ds + 10)%Z -> (mathInt es < 2 ^ 53)%Z ->
        getPersonColor (Some q) = getPersonColor (Some p))
  /\ (forall p : string,
        p <> "" -> (forall pre : string, ~ occurrence p pre) ->
        getPersonColor (Some p) = colors !! 0)
  /\ (forall locs : option LocationResponse,
        getPersonColorFromResponse locs None = Str gray)
  /\ getPersonColor None = Some gray
  /\ (gray ∉ colors)
  /\ length colors = 10 /\ NoDup colors
  /\ getPersonColorFromResponse
       (Some (mkResponse None None None [] "" None (Some ∅))) (Some "person3")
     = Str "#10B981"
  /\ colors !! 2 = Some "#10B981"
  /\ getPersonColorFromResponse
       (Some (mkResponse None None None [] "" None (Some {[ "person1" := "#ABCDEF" ]})))
       (Some "person1")
     = Str "#ABCDEF"
  /\ (forall (r : LocationResponse) (table : gmap string string) (p : string),
        person_colors r = Some table -> table !! p = Some "" ->
        getPersonColorFromResponse (Some r) (Some p) = of_option (getPersonColor (Some p)))
  /\ (forall locs : option LocationResponse,
        getPersonColorFromResponse locs (Some "") = Str gray).
Proof.
  assert (Hsmall : forall p ds : string,
             match_person p = Some ds -> (1 <= mathInt ds < 2 ^ 53)%Z ->
             getPersonColor (Some p) = colors !! Z.to_nat ((mathInt ds - 1) mod 10)).
  { intros p ds Hm HN. rewrite (getPersonColor_small p ds Hm) by lia.
    rewrite Z.rem_mod_nonneg by lia. unfold at_index.
    rewrite (proj2 (Z.ltb_ge _ 0)); [done|]. apply Z.mod_pos_bound. lia. }
  split.
  { intros r table p c Ht Hp Hne Hc. unfold getPersonColorFromResponse. rewrite Ht, Hp.
    destruct (String.eqb_spec p ""); [done|]. by destruct (String.eqb_spec c ""). }
  split.
  { intros r table p Ht Hp Hin. unfold getPersonColorFromResponse. rewrite Ht, Hp, Hin.
    by destruct (String.eqb p ""). }
  split.
  { intros r p Ht. unfold getPersonColorFromResponse. by rewrite Ht. }
  split; [exact is_digit_spec|].
  split; [split; [reflexivity | exact mathInt_snoc]|].
  split; [exact match_person_None|].
  split.
  { intros p ds Hm. destruct (match_person_digits p ds Hm) as [Hne Hds].
    split; [done|]. split; [done|]. by apply match_person_Some. }
  split.
  { intros pre ds rest Hne Hds Hrest Hleft.
    pose proof (match_person_leftmost pre ds rest Hne Hds Hrest Hleft) as Hm.
    split; [done|]. intros HN. by apply Hsmall. }
  split.
  { intros p ds Hm HN. rewrite (Hsmall p ds Hm HN).
    destruct (at_index_colors ((mathInt ds - 1) mod 10)) as (c & Hc & _);
      [apply Z.mod_pos_bound; lia|].
    unfold at_index in Hc. rewrite (proj2 (Z.ltb_ge _ 0)) in Hc
      by (apply Z.mod_pos_bound; lia).
    by exists c. }
  split.
  { intros ds Hne Hds HN. apply Hsmall; [|done]. by apply match_person_personN. }
  split.
  { intros p q ds es Hp Hq HN Hes Hbound.
    rewrite (Hsmall p ds Hp), (Hsmall q es Hq), Hes by lia. f_equal. f_equal.
    replace (mathInt ds + 10 - 1)%Z with (mathInt ds - 1 + 1 * 10)%Z by lia.
    apply Z.mod_add. lia. }
  split.
  { intros p Hne Hno. apply match_person_None in Hno. unfold getPersonColor. rewrite Hno.
    by destruct (String.eqb_spec p ""). }
  split; [by intros [r|]|].
  split; [done|].
  split; [apply (bool_decide_unpack (gray ∉ colors)); vm_compute; exact I|].
  split; [done|].
  split; [apply (bool_decide_unpack (NoDup colors)); vm_compute; exact I|].
  split; [vm_compute; reflexivity|].
  split; [done|].
  split; [vm_compute; reflexivity|].
  split.
  { intros r table p Ht Hp. unfold getPersonColorFromResponse. rewrite Ht, Hp.
    by destruct (String.eqb p ""). }
  intros [r|]; [|done]. unfold getPersonColorFromResponse.
  by destruct (person_colors r).
Qed.

(** C8 on an overridden identifier, on numbered ones and on one without a
    number. *)
Lemma color_assignment_witness :
  getPersonColorFromResponse
    (Some (mkResponse None None None [] "" None (Some {[ "person7" := "#123456" ]})))
    (Some "person7") = Str "#123456"
  /\ (exists c : string,
        getPersonColor (Some "person14") = Some c /\ colors !! 3 = Some c)
  /\ getPersonColor (Some "team person25b") = colors !! 4
  /\ getPersonColor (Some "alice") = colors !! 0.
Proof.
  destruct color_assignment
    as (Hoverride & _ & _ & _ & _ & _ & _ & Hplace & Hnumbered & _ & _ & Hdefault & _).
  split.
  { apply (Hoverride (mkResponse None None None [] "" None (Some {[ "person7" := "#123456" ]}))
             {[ "person7" := "#123456" ]} "person7" "#123456");
      [reflexivity | vm_compute; reflexivity | discriminate | discriminate]. }
  split.
  { apply (Hnumbered "person14" "14"); [reflexivity | split; vm_compute; [discriminate | reflexivity]]. }
  split.
  { apply (Hplace "team " "25" "b"); [discriminate | repeat constructor | reflexivity | |].
    - intros pre' (d & rest & _ & H).
      destruct pre' as [|c1 [|c2 [|c3 [|c4 [|c5 pre']]]]]; [discriminate H .. | simpl; lia].
    - split; vm_compute; [discriminate | reflexivity]. }
  apply (Hdefault "alice"); [discriminate|].
  apply match_person_None. reflexivity.
Defined.

(** C10. For ["person0"] the pattern captures ["0"], whose number is 0; the
    index is [-1], the remainder by ten stays [-1], and the palette has
    nothing there: [getPersonColor] returns [undefined], not a palette colour
    and not the gray.  The same holds for every identifier whose captured
    number is 0; and an identifier that does get a colour is empty (gray),
    or matches nowhere, or carries a number of at least 1. *)
Theorem person0_undefined :
  match_person "person0" = Some "0"
  /\ parseInt "0" = Integer 0
  /\ minus (parseInt "0") 1 = Integer (-1)
  /\ remainder (Integer (-1)) (Z.of_nat (length colors)) = Integer (-1)
  /\ at_number colors (Integer (-1)) = None
  /\ getPersonColor (Some "person0") = None
  /\ (forall p ds : string,
        match_person p = Some ds -> mathInt ds = 0%Z -> getPersonColor (Some p) = None)
  /\ (forall p c : string,
        getPersonColor (Some p) = Some c ->
        p = "" \/ match_person p = None
        \/ exists ds : string, match_person p = Some ds /\ (1 <= mathInt ds)%Z).
Proof.
  split; [reflexivity|]. split; [reflexivity|]. split; [reflexivity|].
  split; [reflexivity|]. split; [reflexivity|]. split; [reflexivity|]. split.
  - intros p ds Hm H0. rewrite (getPersonColor_small p ds Hm), H0 by lia. reflexivity.
  - intros p c Hc. destruct (match_person p) as [ds|] eqn:Hm; [|by right; left].
    right; right. exists ds. split; [done|].
    pose proof (mathInt_nonneg p ds Hm) as Hnn.
    destruct (decide (mathInt ds = 0%Z)) as [H0|]; [|lia].
    rewrite (getPersonColor_small p ds Hm), H0 in Hc by lia. discriminate.
Qed.

(** C10 on an identifier with number 00 and on one with number 12. *)
Lemma person0_undefined_witness :
  getPersonColor (Some "xperson00") = None
  /\ ("person12" = "" \/ match_person "person12" = None
      \/ exists ds : string, match_person "person12" = Some ds /\ (1 <= mathInt ds)%Z).
Proof.
  destruct person0_undefined as (_ & _ & _ & _ & _ & _ & Hzero & Hdefined).
  split.
  - apply (Hzero "xperson00" "00"); reflexivity.
  - apply (Hdefined "person12" "#EF4444"). reflexivity.
Defined.

End ColorFacts.

(** ** Marker sizes *)

Module MarkerSizeFacts.
Import MarkerSize Notions Samples.

Lemma insert_perm (x : string) (l : list string) : insert x l ≡ₚ x :: l.
Proof.
  induction l as [|y l IH]; simpl; [done|].
  destruct (String.leb x y); [done|]. rewrite IH. apply perm_swap.
Qed.

Lemma sort_perm (l : list string) : sort l ≡ₚ l.
Proof.
  induction l as [|x l IH]; simpl; [done|].
  fold (sort l). by rewrite insert_perm, IH.
Qed.

Lemma length_sort (l : list string) : length (sort l) = length l.
Proof. apply Permutation_length, sort_perm. Qed.

Lemma insert_sorted (x : string) (l : list string) :
  Sorted (fun a b => String.leb a b = true) l ->
  Sorted (fun a b => String.leb a b = true) (insert x l).
Proof.
  induction 1 as [|y l Hl IH Hy]; simpl; [by repeat constructor|].
  destruct (String.leb x y) eqn:Hxy.
  - constructor; [by constructor | by constructor].
  - constructor; [exact IH|].
    assert (Hyx : String.leb y x = true) by (destruct (String.leb_total x y); congruence).
    destruct Hy as [|z l' Hyz]; simpl; [by constructor|].
    destruct (String.leb x z); by constructor.
Qed.

(** [sort] returns its argument rearranged in ascending order. *)
Lemma sort_sorted (l : list string) : Sorted (fun a b => String.leb a b = true) (sort l).
Proof.
  induction l as [|x l IH]; simpl; [constructor|]. by apply insert_sorted.
Qed.

(** The order of strings, by code units. *)
Lemma compare_lt_trans (a b c : string) :
  String.compare a b = Lt -> String.compare b c = Lt -> String.compare a c = Lt.
Proof.
  revert b c. induction a as [|x a IH]; intros [|y b] [|z c]; simpl; try done.
  unfold Ascii.compare.
  destruct (N.compare_spec (N_of_ascii x) (N_of_ascii y)),
           (N.compare_spec (N_of_ascii y) (N_of_ascii z)),
           (N.compare_spec (N_of_ascii x) (N_of_ascii z));
    try done; try lia; eauto.
Qed.

Lemma compare_refl (a : string) : String.compare a a = Eq.
Proof.
  pose proof (String.compare_antisym a a) as H.
  by destruct (String.compare a a).
Qed.

Lemma string_leb_trans (a b c : string) :
  String.leb a b = true -> String.leb b c = true -> String.leb a c = true.
Proof.
  unfold String.leb. intros Hab Hbc.
  destruct (String.compare a b) eqn:H1; [|clear Hab|done].
  { apply String.compare_eq_iff in H1. by subst. }
  destruct (String.compare b c) eqn:H2; [|clear Hbc|done].
  { apply String.compare_eq_iff in H2. subst. by rewrite H1. }
  by rewrite (compare_lt_trans a b c).
Qed.

Lemma ltb_of_leb_ne (a b : string) : String.leb a b = true -> a <> b -> String.ltb a b = true.
Proof.
  unfold String.leb, String.ltb. intros Hab Hne.
  destruct (String.compare a b) eqn:H; [|done|done].
  by apply String.compare_eq_iff in H.
Qed.

Lemma ltb_false_of_leb (a b : string) : String.leb a b = true -> String.ltb b a = false.
Proof.
  unfold String.leb, String.ltb. rewrite (String.compare_antisym b a).
  by destruct (String.compare a b).
Qed.

Lemma string_leb_refl (a : string) : String.leb a a = true.
Proof. unfold String.leb. by rewrite compare_refl. Qed.

Lemma filter_none {A : Type} (P : A -> Prop) `{forall x, Decision (P x)} (l : list A) :
  Forall (fun x => ~ P x) l -> filter P l = [].
Proof.
  induction 1 as [|x l Hx _ IH]; [done|]. by rewrite filter_cons_False.
Qed.

Lemma sort_strongly_sorted (l : list string) :
  StronglySorted (fun a b => String.leb a b = true) (sort l).
Proof.
  apply Sorted_StronglySorted; [|apply sort_sorted].
  intros a b c. apply string_leb_trans.
Qed.

(** In a sorted array the first index of an element is the number of
    elements strictly before it. *)
Lemma indexOf_sorted (l : list string) (t : string) :
  StronglySorted (fun a b => String.leb a b = true) l -> t ∈ l ->
  indexOf l t = Z.of_nat (rank l t).
Proof.
  unfold rank. induction 1 as [|y l Hl IH Hy]; intros Ht; [by apply elem_of_nil in Ht|].
  simpl. destruct (String.eqb_spec y t) as [->|Hne].
  - rewrite filter_cons_False
      by (rewrite ltb_false_of_leb; [done | apply string_leb_refl]).
    rewrite filter_none; [done|].
    rewrite Forall_forall in *. intros u Hu. rewrite ltb_false_of_leb; [done|].
    by apply Hy.
  - apply elem_of_cons in Ht as [->|Ht]; [done|].
    rewrite IH by done. rewrite (proj2 (Z.ltb_ge _ 0)) by lia.
    rewrite filter_cons_True; [simpl; lia|].
    apply ltb_of_leb_ne; [|done].
    rewrite Forall_forall in Hy. by apply Hy.
Qed.

Lemma rank_perm (l1 l2 : list string) (t : string) : l1 ≡ₚ l2 -> rank l1 t = rank l2 t.
Proof. intros H. unfold rank. by rewrite H. Qed.

(** [indexOf] on the sorted array finds the rank. *)
Lemma indexOf_sort_rank (ts : list string) (t : string) :
  t ∈ ts -> indexOf (sort ts) t = Z.of_nat (rank ts t).
Proof.
  intros Ht. rewrite (indexOf_sorted _ _ (sort_strongly_sorted ts)).
  - by rewrite (rank_perm _ _ t (sort_perm ts)).
  - by rewrite sort_perm.
Qed.

Lemma indexOf_lookup (l : list string) (k : nat) (x : string) :
  NoDup l -> l !! k = Some x -> indexOf l x = Z.of_nat k.
Proof.
  intros Hnd. revert k. induction Hnd as [|y l Hy Hnd IH]; intros k Hk; [done|].
  destruct k as [|k]; simpl in *.
  - injection Hk as ->. by rewrite String.eqb_refl.
  - destruct (String.eqb_spec y x) as [->|_].
    + exfalso. apply Hy. by eapply list_elem_of_lookup_2.
    + rewrite (IH k Hk). rewrite (proj2 (Z.ltb_ge _ 0)) by lia. lia.
Qed.

Lemma getMarkerSize_tierOf (t : string) (ts : list string) :
  getMarkerSize t ts
  = if (length ts <=? 1)%nat then medium
    else tierOf (indexOf (sort ts) t) (length ts).
Proof. unfold getMarkerSize, tierOf. by rewrite length_sort. Qed.

Lemma tierOf_ten (k : nat) : k < 10 -> tierOf (Z.of_nat k) 10 = tierOfTen k.
Proof.
  intros Hk. do 10 (destruct k as [|k]; [vm_compute; reflexivity|]). lia.
Qed.

(** C4 fails as stated: [person1] has a single sample, which by the claim is
    [medium] whoever else is in the response; next to one later sample of
    [person2] its marker is [small], because the rank is taken among the
    timestamps of the whole response. *)
Lemma marker_size_counterexample :
  personTimestamps twoPersons "person1" = ["2024-01-01T08:00:00Z"]
  /\ getMarkerSize "2024-01-01T08:00:00Z" (personTimestamps twoPersons "person1") = medium
  /\ markerSize (Some twoPersons) (timedSample "person1" "2024-01-01T08:00:00Z") = small
  /\ markerSize (Some onePerson) (timedSample "person1" "2024-01-01T08:00:00Z") = medium.
Proof. vm_compute. repeat split. Qed.

(** C4, amended. The tier of a sample's marker is computed from the rank of
    its timestamp among the timestamps of all the samples of the response, of
    every person, the rank being the number of them that sort strictly
    before it: with [ratio = rank / (count - 1)], [ratio < 0.3] is small,
    [ratio > 0.8] large, anything else medium; a response with at most one
    sample gives medium; and when the response holds ten samples with
    distinct timestamps, ranks 0 to 2 are small, 3 to 7 medium, 8 and 9
    large. *)
Theorem marker_size_by_rank_in_response (r : LocationResponse) (location : LocationItem) :
  markerSize (Some r) location
  = getMarkerSize (timestamp location) (map timestamp (locations r))
  /\ (length (locations r) <= 1 -> markerSize (Some r) location = medium)
  /\ (2 <= length (locations r) -> location ∈ locations r ->
      markerSize (Some r) location
      = let ratio :=
          (number_of_Z (Z.of_nat (rank (map timestamp (locations r)) (timestamp location)))
           / number_of_Z (Z.of_nat (length (locations r)) - 1))%float in
        if (ratio <? 0.3)%float then small
        else if (0.8 <? ratio)%float then large
        else medium)
  /\ (length (locations r) = 10 -> NoDup (map timestamp (locations r)) ->
      forall k : nat,
        sort (map timestamp (locations r)) !! k = Some (timestamp location) ->
        markerSize (Some r) location
        = if (k <=? 2)%nat then small else if (k <=? 7)%nat then medium else large).
Proof.
  unfold markerSize, allTimestamps. split; [done|].
  rewrite getMarkerSize_tierOf, length_map. split; [|split].
  - intros H. by rewrite (proj2 (Nat.leb_le _ 1)).
  - intros H Hin. rewrite (proj2 (Nat.leb_gt _ 1)) by lia.
    rewrite indexOf_sort_rank; [done|].
    apply list_elem_of_fmap. by exists location.
  - intros Hlen Hnd k Hk. rewrite Hlen. simpl.
    assert (Hk10 : k < 10).
    { apply lookup_lt_Some in Hk. by rewrite length_sort, length_map, Hlen in Hk. }
    rewrite (indexOf_lookup _ k) by (by rewrite ?sort_perm).
    by apply tierOf_ten.
Qed.

(** The amended C4 on ten hourly samples of two persons and on a single
    sample. *)
Lemma marker_size_by_rank_in_response_witness :
  length (locations tenSamples) = 10
  /\ NoDup (map timestamp (locations tenSamples))
  /\ sort (map timestamp (locations tenSamples)) !! 8 = Some "2024-01-01T08:00:00Z"
  /\ markerSize (Some tenSamples) (timedSample "person2" "2024-01-01T08:00:00Z") = large
  /\ markerSize (Some onePerson) (timedSample "person1" "2024-01-01T08:00:00Z") = medium.
Proof.
  assert (Hnd : NoDup (map timestamp (locations tenSamples))).
  { apply (bool_decide_unpack (NoDup (map timestamp (locations tenSamples)))).
    vm_compute. exact I. }
  split; [reflexivity|]. split; [exact Hnd|]. split; [reflexivity|].
  split.
  - destruct (marker_size_by_rank_in_response tenSamples
                (timedSample "person2" "2024-01-01T08:00:00Z")) as (_ & _ & _ & Hten).
    exact (Hten eq_refl Hnd 8 eq_refl).
  - destruct (marker_size_by_rank_in_response onePerson
                (timedSample "person1" "2024-01-01T08:00:00Z")) as (_ & Hone & _).
    apply Hone. simpl. lia.
Defined.

End MarkerSizeFacts.

(** ** Visibility *)

Module VisibilityFacts.
Import Visibility Notions Samples.

(** The grouping succeeds when no key names a member of [Object.prototype],
    and its keys are then the keys of the samples. *)
Lemma group_keys (r : LocationResponse) (l : list LocationData)
    (m : gmap string (list LocationData)) :
  Forall (fun location => inherited (personKey r location) = false) l ->
  exists m' : gmap string (list LocationData),
    fold_left (group_step r) l (Some m) = Some m'
    /\ dom m' = dom m ∪ list_to_set (map (personKey r) l).
Proof.
  intros Hl. revert m. induction Hl as [|x l Hx _ IH]; intros m; simpl.
  - exists m. split; [done|]. set_solver.
  - rewrite Hx. destruct (m !! personKey r x) as [locs|] eqn:Hm.
    + destruct (IH (<[personKey r x := locs ++ [x]]> m)) as (m' & Hrun & Hdom).
      exists m'. split; [done|]. rewrite Hdom, dom_insert_L. set_solver.
    + destruct (IH (<[personKey r x := [x]]> m)) as (m' & Hrun & Hdom).
      exists m'. split; [done|]. rewrite Hdom, dom_insert_L. set_solver.
Qed.

(** When a new result arrives and none of its grouping keys names a member
    of [Object.prototype], whatever the state was, the visible persons
    become exactly the keys of the samples of the new result, a sample's key
    being its own person, else the result's person, else ["unknown"]; the
    three display flags keep their values.  A result with persons A and B,
    some toggling, then a result with persons A and C, leaves exactly A and
    C visible. *)
Lemma reset_without_inherited_keys (st : State) (r : LocationResponse) :
  Forall (fun location => inherited (personKey r location) = false) (locations r) ->
  (exists st' : State,
     step st (NewLocations (Some r)) = Some st'
     /\ visiblePersons st' = list_to_set (map (personKey r) (locations r))
     /\ showPaths st' = showPaths st
     /\ showArrows st' = showArrows st
     /\ showClusters st' = showClusters st)
  /\ (forall (location : LocationData) (p : string),
        person location = Some p -> p <> "" -> personKey r location = p)
  /\ (forall (location : LocationData) (q : string),
        person location = None -> response_person r = Some q -> q <> "" ->
        personKey r location = q)
  /\ (forall location : LocationData,
        person location = None -> response_person r = None ->
        personKey r location = "unknown")
  /\ (exists st2 : State,
        run initial [NewLocations (Some resultAB); TogglePerson "A"; SetShowArrows false;
                     NewLocations (Some resultAC)] = Some st2
        /\ visiblePersons st2 = {[ "A"; "C" ]}
        /\ showPaths st2 = true /\ showArrows st2 = false /\ showClusters st2 = true).
Proof.
  intros Hkeys. split.
  { simpl. unfold onLocations, locationsByPerson.
    destruct (group_keys r (locations r) ∅ Hkeys) as (m & Hrun & Hdom).
    rewrite Hrun. eexists. split; [done|]. simpl. rewrite Hdom. set_solver. }
  split.
  { intros location p Hp Hne. unfold personKey, or_else. rewrite Hp.
    by destruct (String.eqb_spec p ""). }
  split.
  { intros location q Hp Hq Hne. unfold personKey, or_else. rewrite Hp, Hq.
    by destruct (String.eqb_spec q ""). }
  split.
  { intros location Hp Hq. unfold personKey, or_else. by rewrite Hp, Hq. }
  eexists. split; [vm_compute; reflexivity|]. simpl.
  repeat split.
Qed.

(** The reset from a state with A and B visible and two flags off. *)
Lemma reset_without_inherited_keys_example :
  Forall (fun location => inherited (personKey resultAC location) = false)
         (locations resultAC)
  /\ exists st' : State,
       step (mkState false true false {[ "A"; "B" ]}) (NewLocations (Some resultAC)) = Some st'
       /\ visiblePersons st' = list_to_set (map (personKey resultAC) (locations resultAC))
       /\ showPaths st' = false
       /\ showArrows st' = true
       /\ showClusters st' = false.
Proof.
  assert (H : Forall (fun location => inherited (personKey resultAC location) = false)
                     (locations resultAC)).
  { repeat constructor. }
  split; [exact H|].
  exact (proj1 (reset_without_inherited_keys
                  (mkState false true false {[ "A"; "B" ]}) resultAC H)).
Defined.

(** C5 at a result whose only sample belongs to a person called [toString].
    The key of the sample is ["toString"], so the visible persons should
    become that one person.  But [acc["toString"]] reads the method that
    every object inherits: the group is not created, [push] is called on
    that method and raises.  [locationsByPerson] has no value, the effect
    that sets the visible persons does not run, and the component does not
    render, from any state and also after a result that was shown. *)
Theorem inherited_person_breaks_reset (st : State) :
  map (personKey resultInherited) (locations resultInherited) = ["toString"]
  /\ inherited "toString" = true
  /\ locationsByPerson (Some resultInherited) = None
  /\ step st (NewLocations (Some resultInherited)) = None
  /\ ~ (exists st' : State,
          step st (NewLocations (Some resultInherited)) = Some st'
          /\ visiblePersons st' = {[ "toString" ]})
  /\ run initial [NewLocations (Some resultAB); NewLocations (Some resultInherited)] = None.
Proof.
  split; [reflexivity|]. split; [reflexivity|]. split; [reflexivity|].
  split; [reflexivity|]. split; [by intros (st' & ? & _)|].
  reflexivity.
Qed.

End VisibilityFacts.

(** ** Query submission *)

Module PageFacts.
Import Page Notions Samples.

(** C6 fails as stated: two calls overlap, the answer to the second query
    arrives first and the answer to the first query last; the page ends up
    showing the answer to the first query. *)
Lemma stale_response_counterexample :
  locations
    (run initial
       [Submit "first"; Submit "second";
        Settle "second" (Response true (Some (answer "to second")));
        Settle "first" (Response true (Some (answer "to first")))])
  = Some (answer "to first")
  /\ Some (answer "to first") <> Some (answer "to second").
Proof.
  split; [reflexivity|]. intros H.
  apply (f_equal (fmap summary)) in H. discriminate.
Qed.

Lemma run_app (h : Home) (t1 t2 : list event) : run h (t1 ++ t2) = run (run h t1) t2.
Proof. unfold run. apply fold_left_app. Qed.

(** C6, amended. The page shows the answer that arrived last: after any
    history, a successful answer that arrives is the one displayed, whenever
    its query was issued.  For two overlapping queries whose answers both
    arrive, the answer to the second query is displayed when it arrives
    after the answer to the first, and the answer to the first query is
    displayed when that one arrives last. *)
Theorem last_arrival_is_displayed (h : Home) (trace : list event) (q q1 q2 : string)
    (data data1 data2 : LocationResponse) :
  locations (run h (trace ++ [Settle q (Response true (Some data))])) = Some data
  /\ locations
       (run h [Submit q1; Submit q2;
               Settle q1 (Response true (Some data1));
               Settle q2 (Response true (Some data2))])
     = Some data2
  /\ locations
       (run h [Submit q1; Submit q2;
               Settle q2 (Response true (Some data2));
               Settle q1 (Response true (Some data1))])
     = Some data1.
Proof.
  split; [by rewrite run_app|]. split; reflexivity.
Qed.

(** C7. A call whose submission fails, that is whose [fetch] does not end in
    a success response with a decoded body (it is rejected, or answered with
    a non-success status, or the answer cannot be decoded), leaves the
    displayed result as it was, adds one alert for the user, and ends with
    [loading] cleared; this holds for the call on its own and for its
    settling in any state. *)
Theorem failed_query_keeps_result (h : Home) (o : outcome) :
  (forall data : LocationResponse, o <> Response true (Some data)) ->
  (locations (handleQuery o h) = locations h
   /\ alerts (handleQuery o h) = alerts h ++ [alertMessage]
   /\ loading (handleQuery o h) = false)
  /\ (locations (handleQuery_settle o h) = locations h
      /\ alerts (handleQuery_settle o h) = alerts h ++ [alertMessage]
      /\ loading (handleQuery_settle o h) = false).
Proof.
  intros Hfail. destruct o as [|[] [data|]]; try done.
  by destruct (Hfail data).
Qed.

(** C7 on a non-success response received while an earlier answer is on
    display. *)
Lemma failed_query_keeps_result_witness :
  (forall data : LocationResponse, Response false None <> Response true (Some data))
  /\ locations (handleQuery (Response false None)
                  (mkHome (Some (answer "earlier")) false [] []))
     = Some (answer "earlier")
  /\ alerts (handleQuery (Response false None)
               (mkHome (Some (answer "earlier")) false [] []))
     = [alertMessage]
  /\ loading (handleQuery (Response false None)
                (mkHome (Some (answer "earlier")) false [] []))
     = false.
Proof.
  assert (Hfail : forall data : LocationResponse,
             Response false None <> Response true (Some data)) by discriminate.
  split; [exact Hfail|].
  exact (proj1 (failed_query_keeps_result
                  (mkHome (Some (answer "earlier")) false [] []) (Response false None) Hfail)).
Defined.

End PageFacts.

(** ** Map viewport *)

Module ViewportFacts.
Import Viewport Notions Samples.

Lemma classify_zero (x : float) (s : bool) :
  PrimFloat.classify x = (if s then NZero else PZero) -> Prim2SF x = S754_zero s.
Proof.
  rewrite classify_spec. unfold SF64classify, SFclassify.
  destruct (Prim2SF x) as [[]|[]| |[] m e], s; try done;
    by destruct (Z.pos (digits2_pos m) =? prec)%Z.
Qed.

Lemma neg_zero_leb_pos_zero (x y : float) :
  is_neg_zero x = true -> is_pos_zero y = true -> (x <=? y)%float = true.
Proof.
  unfold is_neg_zero, is_pos_zero. intros Hx Hy.
  rewrite FloatAxioms.leb_spec.
  rewrite (classify_zero x true), (classify_zero y false); [done| |].
  - by destruct (PrimFloat.classify y).
  - by destruct (PrimFloat.classify x).
Qed.

Lemma leb_infinity (x : float) :
  (PrimFloat.infinity <=? x)%float = true -> x = PrimFloat.infinity.
Proof.
  rewrite FloatAxioms.leb_spec. intros H. apply Prim2SF_inj.
  change (Prim2SF PrimFloat.infinity) with (S754_infinity false) in *.
  by destruct (Prim2SF x) as [[]|[]| |[] m e].
Qed.

Lemma leb_neg_infinity (x : float) :
  (x <=? PrimFloat.neg_infinity)%float = true -> x = PrimFloat.neg_infinity.
Proof.
  rewrite FloatAxioms.leb_spec. intros H. apply Prim2SF_inj.
  change (Prim2SF PrimFloat.neg_infinity) with (S754_infinity true) in *.
  by destruct (Prim2SF x) as [[]|[]| |[] m e].
Qed.

(** [min_from]: the result is the start value or an argument, is not [NaN],
    and is below the start value and every argument. *)
Lemma min_from_spec (xs : list float) (lowest : float) :
  Forall not_nan xs -> not_nan lowest ->
  (min_from lowest xs = lowest \/ min_from lowest xs ∈ xs)
  /\ not_nan (min_from lowest xs)
  /\ (min_from lowest xs <=? lowest)%float = true
  /\ Forall (fun x => (min_from lowest xs <=? x)%float = true) xs.
Proof.
  intros Hxs. revert lowest. induction Hxs as [|x xs Hx _ IH]; intros lowest Hl; simpl.
  - repeat split; [by left | done | by apply FloatFacts.leb_refl | constructor].
  - rewrite Hx.
    assert (Hstep : forall next : float,
              next = x \/ next = lowest -> (next <=? lowest)%float = true ->
              (next <=? x)%float = true ->
              (min_from next xs = lowest \/ min_from next xs ∈ x :: xs)
              /\ not_nan (min_from next xs)
              /\ (min_from next xs <=? lowest)%float = true
              /\ Forall (fun y => (min_from next xs <=? y)%float = true) (x :: xs)).
    { intros next Hnext Hnl Hnx.
      assert (Hnn : not_nan next) by (by destruct Hnext as [->| ->]).
      destruct (IH next Hnn) as (Hmem & Hnan & Hle & Hall).
      split.
      { destruct Hmem as [Hm|Hm]; [|right; by constructor].
        rewrite Hm. destruct Hnext as [->| ->]; [right; constructor | by left]. }
      split; [done|].
      split; [by eapply FloatFacts.leb_trans|].
      constructor; [by eapply FloatFacts.leb_trans | done]. }
    destruct (is_neg_zero x && is_pos_zero lowest) eqn:Hz.
    + apply andb_true_iff in Hz as [Hz1 Hz2]. apply Hstep; [by left | |].
      * by apply neg_zero_leb_pos_zero.
      * by apply FloatFacts.leb_refl.
    + destruct (x <? lowest)%float eqn:Hlt.
      * apply Hstep; [by left | by apply FloatFacts.ltb_leb | by apply FloatFacts.leb_refl].
      * apply Hstep; [by right | by apply FloatFacts.leb_refl |].
        by apply FloatFacts.leb_of_not_ltb.
Qed.

Lemma max_from_spec (xs : list float) (highest : float) :
  Forall not_nan xs -> not_nan highest ->
  (max_from highest xs = highest \/ max_from highest xs ∈ xs)
  /\ not_nan (max_from highest xs)
  /\ (highest <=? max_from highest xs)%float = true
  /\ Forall (fun x => (x <=? max_from highest xs)%float = true) xs.
Proof.
  intros Hxs. revert highest. induction Hxs as [|x xs Hx _ IH]; intros highest Hh; simpl.
  - repeat split; [by left | done | by apply FloatFacts.leb_refl | constructor].
  - rewrite Hx.
    assert (Hstep : forall next : float,
              next = x \/ next = highest -> (highest <=? next)%float = true ->
              (x <=? next)%float = true ->
              (max_from next xs = highest \/ max_from next xs ∈ x :: xs)
              /\ not_nan (max_from next xs)
              /\ (highest <=? max_from next xs)%float = true
              /\ Forall (fun y => (y <=? max_from next xs)%float = true) (x :: xs)).
    { intros next Hnext Hnl Hnx.
      assert (Hnn : not_nan next) by (by destruct Hnext as [->| ->]).
      destruct (IH next Hnn) as (Hmem & Hnan & Hle & Hall).
      split.
      { destruct Hmem as [Hm|Hm]; [|right; by constructor].
        rewrite Hm. destruct Hnext as [->| ->]; [right; constructor | by left]. }
      split; [done|].
      split; [by eapply FloatFacts.leb_trans|].
      constructor; [by eapply FloatFacts.leb_trans | done]. }
    destruct (is_pos_zero x && is_neg_zero highest) eqn:Hz.
    + apply andb_true_iff in Hz as [Hz1 Hz2]. apply Hstep; [by left | |].
      * by apply neg_zero_leb_pos_zero.
      * by apply FloatFacts.leb_refl.
    + destruct (highest <? x)%float eqn:Hlt.
      * apply Hstep; [by left | by apply FloatFacts.ltb_leb | by apply FloatFacts.leb_refl].
      * apply Hstep; [by right | by apply FloatFacts.leb_refl |].
        by apply FloatFacts.leb_of_not_ltb.
Qed.

(** On at least one number, none of them [NaN], [Math.min] is the least of
    its arguments and [Math.max] the greatest. *)
Lemma Math_min_least (xs : list float) :
  xs <> [] -> Forall not_nan xs ->
  Math_min xs ∈ xs /\ Forall (fun x => (Math_min xs <=? x)%float = true) xs.
Proof.
  intros Hne Hxs. unfold Math_min.
  destruct (min_from_spec xs PrimFloat.infinity Hxs eq_refl) as (Hmem & _ & _ & Hall).
  split; [|done]. destruct Hmem as [Hm|]; [|done].
  destruct xs as [|x xs]; [done|].
  rewrite Hm in *. inversion Hall as [|? ? Hx _]; subst.
  apply leb_infinity in Hx. rewrite Hx. constructor.
Qed.

Lemma Math_max_greatest (xs : list float) :
  xs <> [] -> Forall not_nan xs ->
  Math_max xs ∈ xs /\ Forall (fun x => (x <=? Math_max xs)%float = true) xs.
Proof.
  intros Hne Hxs. unfold Math_max.
  destruct (max_from_spec xs PrimFloat.neg_infinity Hxs eq_refl) as (Hmem & _ & _ & Hall).
  split; [|done]. destruct Hmem as [Hm|]; [|done].
  destruct xs as [|x xs]; [done|].
  rewrite Hm in *. inversion Hall as [|? ? Hx _]; subst.
  apply leb_neg_infinity in Hx. rewrite Hx. constructor.
Qed.

Lemma Math_min_max_extremes (xs : list float) :
  xs <> [] -> Forall not_nan xs -> extremes xs (Math_min xs) (Math_max xs).
Proof.
  intros Hne Hxs.
  destruct (Math_min_least xs Hne Hxs) as [Hlo Hlos].
  destruct (Math_max_greatest xs Hne Hxs) as [Hhi Hhis].
  split; [done|]. split; [done|].
  rewrite Forall_forall in *. intros x Hx. split; auto.
Qed.

(** C9. Without a response, or with an empty list of locations, the viewport
    is the default centre (32.0853, 34.7818) at zoom 13; with exactly one
    location it is that point at zoom 15, the closest of the three zooms;
    with two or more it is at zoom 14, centred on
    [((min lat + max lat) / 2, (min lng + max lng) / 2)], where, no
    coordinate being [NaN], the minima and maxima are the least and greatest
    latitude and longitude among the locations. *)
Theorem map_bounds_cases (r : LocationResponse) :
  getMapBounds None = mkBounds (32.0853%float, 34.7818%float) 13
  /\ (locations r = [] ->
      getMapBounds (Some r) = mkBounds (32.0853%float, 34.7818%float) 13)
  /\ (forall l : LocationData,
        locations r = [l] ->
        getMapBounds (Some r) = mkBounds (latitude l, longitude l) 15
        /\ (13 < 15)%Z /\ (14 < 15)%Z)
  /\ (2 <= length (locations r) ->
      let lats := map latitude (locations r) in
      let lngs := map longitude (locations r) in
      getMapBounds (Some r)
      = mkBounds ((Math_min lats + Math_max lats) / 2,
                  (Math_min lngs + Math_max lngs) / 2)%float 14
      /\ (Forall not_nan lats -> extremes lats (Math_min lats) (Math_max lats))
      /\ (Forall not_nan lngs -> extremes lngs (Math_min lngs) (Math_max lngs))).
Proof.
  split; [reflexivity|]. split.
  { intros Hr. unfold getMapBounds. by rewrite Hr. }
  split.
  { intros l Hr. unfold getMapBounds. rewrite Hr. simpl. repeat split; lia. }
  intros Hlen lats lngs. split.
  - unfold getMapBounds, lats, lngs.
    destruct (locations r) as [|a [|b rest]]; simpl in Hlen; [lia | lia |].
    rewrite !map_map. simpl. done.
  - assert (Hne : locations r <> []) by (intros Hr; rewrite Hr in Hlen; simpl in Hlen; lia).
    split; intros Hnan; apply Math_min_max_extremes; try done;
      unfold lats, lngs; by destruct (locations r).
Qed.

(** C9 on three points. *)
Lemma map_bounds_cases_witness :
  2 <= length (locations threePoints)
  /\ getMapBounds (Some threePoints) = mkBounds (2%float, 2%float) 14
  /\ extremes (map latitude (locations threePoints)) 1%float 3%float
  /\ extremes (map longitude (locations threePoints)) (-4)%float 8%float.
Proof.
  assert (Hlen : 2 <= length (locations threePoints)) by (simpl; lia).
  destruct (map_bounds_cases threePoints) as (_ & _ & _ & Hmany).
  destruct (Hmany Hlen) as (Hbounds & Hlats & Hlngs).
  split; [exact Hlen|]. split; [exact Hbounds|].
  split; [apply Hlats | apply Hlngs]; repeat constructor.
Defined.

End ViewportFacts.

(** * Further properties of the code *)

(** ** More on [clusterLocations] *)

Module ClusteringMore.
Import Clustering Notions Samples MoreNotions.

Lemma filter_all {A : Type} (P : A -> Prop) `{forall x, Decision (P x)} (l : list A) :
  Forall P l -> filter P l = l.
Proof.
  induction 1 as [|x l Hx _ IH]; [done|]. by rewrite filter_cons_True, IH.
Qed.

Lemma filter_nothing {A : Type} (P : A -> Prop) `{forall x, Decision (P x)} (l : list A) :
  Forall (fun x => ~ P x) l -> filter P l = [].
Proof.
  induction 1 as [|x l Hx _ IH]; [done|]. by rewrite filter_cons_False.
Qed.

Lemma is_nan_true (x : float) : PrimFloat.is_nan x = true <-> Prim2SF x = S754_nan.
Proof.
  unfold PrimFloat.is_nan. rewrite FloatAxioms.eqb_spec. split.
  - intros H. destruct (Prim2SF x) eqn:Hx; try done;
      by rewrite FloatFacts.SFeqb_refl in H.
  - by intros ->.
Qed.

(** [NaN] is below nothing and nothing is below it. *)
Lemma leb_nan_l (x y : float) : PrimFloat.is_nan x = true -> (x <=? y)%float = false.
Proof.
  intros Hx. rewrite FloatAxioms.leb_spec. apply is_nan_true in Hx. by rewrite Hx.
Qed.

Lemma leb_nan_r (x y : float) : PrimFloat.is_nan y = true -> (x <=? y)%float = false.
Proof.
  intros Hy. rewrite FloatAxioms.leb_spec. apply is_nan_true in Hy. rewrite Hy.
  unfold SFleb, SFcompare. by destruct (Prim2SF x) as [[]|[]| |[] m e].
Qed.

(** [NaN] goes through the four operations of [distance]. *)
Lemma sub_nan (x y : float) :
  PrimFloat.is_nan x = true \/ PrimFloat.is_nan y = true -> PrimFloat.is_nan (x - y) = true.
Proof.
  rewrite !is_nan_true, FloatAxioms.sub_spec. unfold SF64sub, SFsub.
  intros [-> | ->]; [done|]. by destruct (Prim2SF x) as [[]|[]| |[] m e].
Qed.

Lemma mul_nan (x y : float) :
  PrimFloat.is_nan x = true -> PrimFloat.is_nan (x * y) = true.
Proof. rewrite !is_nan_true, FloatAxioms.mul_spec. by intros ->. Qed.

Lemma add_nan (x y : float) :
  PrimFloat.is_nan x = true \/ PrimFloat.is_nan y = true -> PrimFloat.is_nan (x + y) = true.
Proof.
  rewrite !is_nan_true, FloatAxioms.add_spec. unfold SF64add, SFadd.
  intros [-> | ->]; [done|]. by destruct (Prim2SF x) as [[]|[]| |[] m e].
Qed.

Lemma sqrt_nan (x : float) : PrimFloat.is_nan x = true -> PrimFloat.is_nan (PrimFloat.sqrt x) = true.
Proof. rewrite !is_nan_true, FloatAxioms.sqrt_spec. by intros ->. Qed.

Lemma distance_nan (a b : LocationItem) :
  nan_coordinate a = true \/ nan_coordinate b = true ->
  PrimFloat.is_nan (distance a b) = true.
Proof.
  unfold nan_coordinate, distance, pow2. intros H.
  apply sqrt_nan, add_nan.
  destruct H as [H|H]; apply orb_true_iff in H as [H|H].
  - left. apply mul_nan, mul_nan, sub_nan. by left.
  - right. apply mul_nan, mul_nan, sub_nan. by left.
  - left. apply mul_nan, mul_nan, sub_nan. by right.
  - right. apply mul_nan, mul_nan, sub_nan. by right.
Qed.

Lemma joins_nan_coordinate (t : float) (a b : LocationItem) :
  nan_coordinate a = true \/ nan_coordinate b = true -> joins t a b = false.
Proof.
  intros H. unfold joins. rewrite leb_nan_l by (by apply distance_nan).
  apply andb_false_r.
Qed.

Lemma joins_nan_threshold (t : float) (a b : LocationItem) :
  PrimFloat.is_nan t = true -> joins t a b = false.
Proof.
  intros H. unfold joins. rewrite leb_nan_r by done. apply andb_false_r.
Qed.

(** X1. The members of a cluster are all samples of the cluster's person. *)
Theorem cluster_members_same_person (locations : list LocationItem) (t : float)
    (c : ClusterItem) (m : LocationItem) :
  c ∈ clusterLocations locations t -> m ∈ cluster_locations c ->
  or_else (person m) "unknown" = cluster_person c.
Proof.
  intros Hc Hm. rewrite ClusteringFacts.clusterLocations_greedy in Hc.
  pose proof (ClusteringFacts.greedy_seeded t locations) as Hall.
  rewrite Forall_forall in Hall.
  destruct (Hall c Hc) as (seed & members & Hlocs & _ & Hperson & Hjoin).
  rewrite Hlocs in Hm. rewrite Hperson.
  apply elem_of_cons in Hm as [->|Hm]; [done|].
  rewrite Forall_forall in Hjoin. specialize (Hjoin m Hm).
  unfold joins in Hjoin. apply andb_true_iff in Hjoin as [Hp _].
  by apply String.eqb_eq in Hp.
Qed.

Lemma cluster_members_same_person_witness :
  mkCluster [sampleAt 1 0; sampleAt 1 0.75; sampleAt 1 (-0.75)] (1%float, 0%float) "person1"
    ∈ clusterLocations fourSamples 100000
  /\ sampleAt 1 0.75 ∈ [sampleAt 1 0; sampleAt 1 0.75; sampleAt 1 (-0.75)]
  /\ or_else (person (sampleAt 1 0.75)) "unknown" = "person1".
Proof.
  assert (Hc : mkCluster [sampleAt 1 0; sampleAt 1 0.75; sampleAt 1 (-0.75)]
                 (1%float, 0%float) "person1" ∈ clusterLocations fourSamples 100000).
  { vm_compute. apply list_elem_of_further, list_elem_of_here. }
  assert (Hm : sampleAt 1 0.75 ∈ [sampleAt 1 0; sampleAt 1 0.75; sampleAt 1 (-0.75)]).
  { apply list_elem_of_further, list_elem_of_here. }
  split; [exact Hc|]. split; [exact Hm|].
  exact (cluster_members_same_person fourSamples 100000 _ _ Hc Hm).
Defined.

Lemma greedy_sublists (t : float) (samples : list LocationItem) :
  Forall (fun c => cluster_locations c `sublist_of` samples) (greedyReference t samples)
  /\ omap (fun c => head (cluster_locations c)) (greedyReference t samples)
     `sublist_of` samples.
Proof.
  funelim (greedyReference t samples); simp greedyReference; [by repeat constructor|].
  destruct H as [Hmembers Hseeds]. split.
  - constructor; [simpl; apply sublist_skip, sublist_filter|].
    eapply Forall_impl; [exact Hmembers|]. intros c Hc. simpl in Hc.
    apply sublist_cons. etrans; [exact Hc | apply sublist_filter].
  - simpl. apply sublist_skip. etrans; [exact Hseeds | apply sublist_filter].
Qed.

(** X2. Clustering keeps the order of the input: the members of every
    cluster appear in the input in the same order, and so do the seeds of
    the successive clusters. *)
Theorem clusters_keep_input_order (locations : list LocationItem) (t : float) :
  Forall (fun c => cluster_locations c `sublist_of` locations) (clusterLocations locations t)
  /\ omap (fun c => head (cluster_locations c)) (clusterLocations locations t)
     `sublist_of` locations.
Proof. rewrite ClusteringFacts.clusterLocations_greedy. apply greedy_sublists. Qed.

Lemma greedy_all_singletons (t : float) (samples : list LocationItem) :
  (forall a b, joins t a b = false) ->
  greedyReference t samples
  = map (fun s => mkCluster [s] (latitude s, longitude s) (or_else (person s) "unknown")) samples.
Proof.
  intros Hno. induction samples as [|s rest IH]; simp greedyReference; [done|].
  rewrite filter_nothing, filter_all, IH; [done| |];
    apply Forall_forall; intros x _; by rewrite Hno.
Qed.

(** X3. With a threshold that is not a number nothing is grouped: every
    sample is a cluster of its own, in input order. *)
Theorem nan_threshold_all_singletons (locations : list LocationItem) (t : float) :
  PrimFloat.is_nan t = true ->
  clusterLocations locations t
  = map (fun s => mkCluster [s] (latitude s, longitude s) (or_else (person s) "unknown"))
        locations.
Proof.
  intros Ht. rewrite ClusteringFacts.clusterLocations_greedy.
  apply greedy_all_singletons. intros a b. by apply joins_nan_threshold.
Qed.

Lemma nan_threshold_all_singletons_witness :
  PrimFloat.is_nan PrimFloat.nan = true
  /\ clusterLocations fourSamples PrimFloat.nan
     = map (fun s => mkCluster [s] (latitude s, longitude s) (or_else (person s) "unknown"))
           fourSamples.
Proof.
  split; [reflexivity|]. exact (nan_threshold_all_singletons fourSamples PrimFloat.nan eq_refl).
Defined.

(** X4. A sample with a [NaN] latitude or longitude is never grouped with
    another sample: the cluster that holds it holds nothing else. *)
Theorem nan_sample_is_alone (locations : list LocationItem) (t : float)
    (c : ClusterItem) (m : LocationItem) :
  c ∈ clusterLocations locations t -> m ∈ cluster_locations c ->
  PrimFloat.is_nan (latitude m) || PrimFloat.is_nan (longitude m) = true ->
  cluster_locations c = [m].
Proof.
  intros Hc Hm Hnan. rewrite ClusteringFacts.clusterLocations_greedy in Hc.
  pose proof (ClusteringFacts.greedy_seeded t locations) as Hall.
  rewrite Forall_forall in Hall.
  destruct (Hall c Hc) as (seed & members & Hlocs & _ & _ & Hjoin).
  rewrite Hlocs in *. rewrite Forall_forall in Hjoin.
  apply elem_of_cons in Hm as [->|Hm].
  - destruct members as [|x members]; [done|].
    specialize (Hjoin x (list_elem_of_here _ _)).
    rewrite joins_nan_coordinate in Hjoin by (by left). done.
  - specialize (Hjoin m Hm).
    rewrite joins_nan_coordinate in Hjoin by (by right). done.
Qed.

Lemma nan_sample_is_alone_witness :
  mkCluster [sampleAt PrimFloat.nan 0] (PrimFloat.nan, 0%float) "person1"
    ∈ clusterLocations [sampleAt 0 0; sampleAt PrimFloat.nan 0; sampleAt 0 0] 50
  /\ sampleAt PrimFloat.nan 0 ∈ [sampleAt PrimFloat.nan 0]
  /\ PrimFloat.is_nan (latitude (sampleAt PrimFloat.nan 0))
     || PrimFloat.is_nan (longitude (sampleAt PrimFloat.nan 0)) = true
  /\ [sampleAt PrimFloat.nan 0] = [sampleAt PrimFloat.nan 0].
Proof.
  assert (Hc : mkCluster [sampleAt PrimFloat.nan 0] (PrimFloat.nan, 0%float) "person1"
                 ∈ clusterLocations [sampleAt 0 0; sampleAt PrimFloat.nan 0; sampleAt 0 0] 50).
  { vm_compute. apply list_elem_of_further, list_elem_of_here. }
  assert (Hm : sampleAt PrimFloat.nan 0 ∈ [sampleAt PrimFloat.nan 0]) by apply list_elem_of_here.
  split; [exact Hc|]. split; [exact Hm|]. split; [reflexivity|].
  exact (nan_sample_is_alone _ 50 _ _ Hc Hm eq_refl).
Defined.

Lemma greedy_persons (t : float) (samples : list LocationItem) :
  list_to_set (map cluster_person (greedyReference t samples))
  =@{gset string} list_to_set (map personOf samples).
Proof.
  funelim (greedyReference t samples); simp greedyReference; [done|].
  simpl. rewrite H. apply set_eq. intros p.
  rewrite !elem_of_union, !elem_of_singleton, !elem_of_list_to_set, !list_elem_of_fmap.
  split.
  - intros [->|(x & -> & Hx)]; [by left|]. right. exists x. split; [done|].
    by apply list_elem_of_filter in Hx as [_ Hx].
  - intros [->|(x & -> & Hx)]; [by left|].
    destruct (joins t seed x) eqn:Hj.
    + left. unfold joins in Hj. apply andb_true_iff in Hj as [Hp _].
      by apply String.eqb_eq in Hp.
    + right. exists x. split; [done|]. apply list_elem_of_filter. split; [|done].
      by rewrite Hj.
Qed.

(** X5. The persons of the clusters are exactly the persons of the samples:
    every person with a sample has a cluster, and no cluster is for anyone
    else. *)
Theorem cluster_persons_are_sample_persons (locations : list LocationItem) (t : float) :
  list_to_set (map cluster_person (clusterLocations locations t))
  =@{gset string} list_to_set (map (fun s => or_else (person s) "unknown") locations).
Proof. rewrite ClusteringFacts.clusterLocations_greedy. apply greedy_persons. Qed.

(** X6. Clusters are stable: clustering the members of a cluster again, with
    the same threshold, gives back that cluster and nothing else. *)
Theorem cluster_is_stable (locations : list LocationItem) (t : float) (c : ClusterItem) :
  c ∈ clusterLocations locations t ->
  clusterLocations (cluster_locations c) t = [c].
Proof.
  intros Hc. rewrite ClusteringFacts.clusterLocations_greedy in Hc.
  pose proof (ClusteringFacts.greedy_seeded t locations) as Hall.
  rewrite Forall_forall in Hall.
  destruct (Hall c Hc) as (seed & members & Hlocs & Hcenter & Hperson & Hjoin).
  rewrite ClusteringFacts.clusterLocations_greedy, Hlocs. simp greedyReference.
  rewrite filter_all by done.
  rewrite filter_nothing
    by (eapply Forall_impl; [exact Hjoin|]; intros x Hx Hn; by apply Hn).
  simp greedyReference. destruct c as [ls ce pe]. simpl in *. by subst.
Qed.

Lemma cluster_is_stable_witness :
  mkCluster [sampleAt 1 0; sampleAt 1 0.75; sampleAt 1 (-0.75)] (1%float, 0%float) "person1"
    ∈ clusterLocations fourSamples 100000
  /\ clusterLocations [sampleAt 1 0; sampleAt 1 0.75; sampleAt 1 (-0.75)] 100000
     = [mkCluster [sampleAt 1 0; sampleAt 1 0.75; sampleAt 1 (-0.75)]
          (1%float, 0%float) "person1"].
Proof.
  assert (Hc : mkCluster [sampleAt 1 0; sampleAt 1 0.75; sampleAt 1 (-0.75)]
                 (1%float, 0%float) "person1" ∈ clusterLocations fourSamples 100000).
  { vm_compute. apply list_elem_of_further, list_elem_of_here. }
  split; [exact Hc|]. exact (cluster_is_stable fourSamples 100000 _ Hc).
Defined.

End ClusteringMore.

(** ** Grouping by person ([locationsByPerson]) *)

Module GroupingFacts.
Import Visibility Notions Samples MoreNotions.

Lemma group_step_None (r : LocationResponse) (l : list LocationData) :
  fold_left (group_step r) l None = None.
Proof. by induction l. Qed.

(** The grouping of [pre ++ l], started from the grouping of [pre]. *)
Lemma group_fold (r : LocationResponse) (l pre : list LocationData)
    (m : gmap string (list LocationData)) :
  (forall k, m !! k = groupOf r k pre) ->
  Forall (fun location => inherited (personKey r location) = false) l ->
  exists m' : gmap string (list LocationData),
    fold_left (group_step r) l (Some m) = Some m'
    /\ forall k, m' !! k = groupOf r k (pre ++ l).
Proof.
  intros Hm Hl. revert pre m Hm.
  induction Hl as [|x l Hx _ IH]; intros pre m Hm; simpl.
  - exists m. split; [done|]. intros k. by rewrite app_nil_r.
  - rewrite Hx.
    assert (Hnext : forall v,
              (m !! personKey r x = Some v \/ m !! personKey r x = None /\ v = []) ->
              forall k, <[personKey r x := v ++ [x]]> m !! k = groupOf r k (pre ++ [x])).
    { intros v Hv k. unfold groupOf. rewrite filter_app, filter_cons, filter_nil.
      destruct (decide (personKey r x = k)) as [<-|Hne].
      - rewrite lookup_insert_eq. specialize (Hm (personKey r x)). unfold groupOf in Hm.
        destruct Hv as [Hv|[Hv ->]]; rewrite Hv in Hm.
        + destruct (filter _ pre) as [|y ys]; [done|]. injection Hm as ->. done.
        + by destruct (filter _ pre).
      - rewrite lookup_insert_ne by done. rewrite app_nil_r. apply Hm. }
    destruct (m !! personKey r x) as [locs|] eqn:Hlook.
    + destruct (IH (pre ++ [x]) (<[personKey r x := locs ++ [x]]> m)) as (m' & Hrun & Hm');
        [apply Hnext; by left|].
      exists m'. split; [done|]. intros k. by rewrite Hm', <- app_assoc.
    + destruct (IH (pre ++ [x]) (<[personKey r x := [x]]> m)) as (m' & Hrun & Hm');
        [apply (Hnext []); by right|].
      exists m'. split; [done|]. intros k. by rewrite Hm', <- app_assoc.
Qed.

(** The first sample whose key names a member of [Object.prototype] makes
    the grouping throw. *)
Lemma group_fold_throws (r : LocationResponse) (l : list LocationData)
    (m : gmap string (list LocationData)) :
  (forall k, inherited k = true -> m !! k = None) ->
  Exists (fun location => inherited (personKey r location) = true) l ->
  fold_left (group_step r) l (Some m) = None.
Proof.
  intros Hm Hl. revert m Hm. induction l as [|x l IH]; intros m Hm; [by inversion Hl|].
  simpl. destruct (inherited (personKey r x)) eqn:Hx.
  - rewrite (Hm _ Hx). apply group_step_None.
  - assert (Hrest : Exists (fun location => inherited (personKey r location) = true) l).
    { inversion Hl as [? ? Hh|]; subst; [congruence | done]. }
    destruct (m !! personKey r x) as [locs|]; apply IH; try done;
      intros k Hk; (rewrite lookup_insert_ne by congruence); by apply Hm.
Qed.

Lemma not_inherited_of_no_throw (r : LocationResponse) (l : list LocationData) :
  ~ Exists (fun location => inherited (personKey r location) = true) l ->
  Forall (fun location => inherited (personKey r location) = false) l.
Proof.
  intros Hno. apply not_Exists_Forall in Hno; [|intros x; apply _].
  eapply Forall_impl; [exact Hno|]. intros x Hx. simpl in Hx.
  by destruct (inherited (personKey r x)).
Qed.

Lemma locationsByPerson_None_iff (r : LocationResponse) :
  locationsByPerson (Some r) = None
  <-> Exists (fun location => inherited (personKey r location) = true) (locations r).
Proof.
  unfold locationsByPerson. split.
  - intros Hnone.
    destruct (decide (Exists (fun location => inherited (personKey r location) = true)
                             (locations r))) as [|Hno]; [done|].
    apply not_inherited_of_no_throw in Hno.
    destruct (group_fold r (locations r) [] ∅) as (m & Hm & _); [done|done|congruence].
  - apply group_fold_throws. intros k _. apply lookup_empty.
Qed.

(** X7. [locationsByPerson] throws exactly when the key of some sample
    names a member of [Object.prototype] (such as ["constructor"] or
    ["toString"]); without a response it is the empty grouping. *)
Theorem grouping_throws_iff (r : LocationResponse) :
  (locationsByPerson (Some r) = None
   <-> Exists (fun location => inherited (personKey r location) = true) (locations r))
  /\ locationsByPerson None = Some ∅.
Proof. split; [apply locationsByPerson_None_iff | done]. Qed.

Lemma group_is_filter_aux (r : LocationResponse) (groups : gmap string (list LocationData))
    (k : string) :
  locationsByPerson (Some r) = Some groups ->
  groups !! k = groupOf r k (locations r).
Proof.
  intros Hg.
  assert (Hok : Forall (fun location => inherited (personKey r location) = false) (locations r)).
  { destruct (decide (Exists (fun location => inherited (personKey r location) = true)
                             (locations r))) as [Hex|Hno].
    - apply locationsByPerson_None_iff in Hex. congruence.
    - by apply not_inherited_of_no_throw. }
  destruct (group_fold r (locations r) [] ∅) as (m & Hrun & Hm); [done|done|].
  unfold locationsByPerson in Hg. rewrite Hrun in Hg. injection Hg as <-.
  apply Hm.
Qed.

(** X8. When the grouping succeeds, the group of a person is exactly the
    samples with that key, in the order of the response; a key that no
    sample has has no group, so no group is empty. *)
Theorem group_is_filter (r : LocationResponse) (groups : gmap string (list LocationData))
    (k : string) :
  locationsByPerson (Some r) = Some groups ->
  groups !! k
  = match filter (fun location => personKey r location = k) (locations r) with
    | [] => None
    | g => Some g
    end.
Proof. apply group_is_filter_aux. Qed.

Lemma group_is_filter_witness :
  locationsByPerson (Some resultAB)
  = Some {[ "A" := [personSample (Some "A"); personSample (Some "A")];
            "B" := [personSample (Some "B")] ]}
  /\ ({[ "A" := [personSample (Some "A"); personSample (Some "A")];
         "B" := [personSample (Some "B")] ]} : gmap string (list LocationData)) !! "C"
     = None.
Proof.
  assert (Hg : locationsByPerson (Some resultAB)
               = Some {[ "A" := [personSample (Some "A"); personSample (Some "A")];
                         "B" := [personSample (Some "B")] ]}) by (vm_compute; reflexivity).
  split; [exact Hg|]. exact (group_is_filter resultAB _ "C" Hg).
Defined.

Lemma sampleCount_insert_new (m : gmap string (list LocationData)) (k : string)
    (v : list LocationData) :
  m !! k = None -> sampleCount (<[k := v]> m) = length v + sampleCount m.
Proof.
  intros Hk. unfold sampleCount. rewrite map_fold_insert_L; [done| |done].
  intros. lia.
Qed.

Lemma sampleCount_insert (m : gmap string (list LocationData)) (k : string)
    (old v : list LocationData) :
  m !! k = Some old -> sampleCount (<[k := v]> m) + length old = length v + sampleCount m.
Proof.
  intros Hk. rewrite <- (insert_delete_eq m k v).
  rewrite <- (insert_delete_id m k old Hk) at 2.
  rewrite !sampleCount_insert_new by apply lookup_delete_eq. lia.
Qed.

Lemma group_fold_count (r : LocationResponse) (l : list LocationData)
    (m m' : gmap string (list LocationData)) :
  fold_left (group_step r) l (Some m) = Some m' ->
  sampleCount m' = sampleCount m + length l.
Proof.
  revert m. induction l as [|x l IH]; intros m; simpl.
  - intros [= <-]. lia.
  - destruct (m !! personKey r x) as [locs|] eqn:Hk.
    + intros Hrun. rewrite (IH _ Hrun).
      pose proof (sampleCount_insert m _ locs (locs ++ [x]) Hk) as H.
      rewrite length_app in H. simpl in H. lia.
    + destruct (inherited (personKey r x)).
      * by rewrite group_step_None.
      * intros Hrun. rewrite (IH _ Hrun), sampleCount_insert_new by done. simpl. lia.
Qed.

(** X9. When the grouping succeeds, the sizes of the groups add up to the
    number of samples of the response, and the persons listed are the keys
    of the samples. *)
Theorem group_sizes_add_up (r : LocationResponse) (groups : gmap string (list LocationData)) :
  locationsByPerson (Some r) = Some groups ->
  map_fold (fun _ locs n => length locs + n) 0 groups = length (locations r)
  /\ dom groups = list_to_set (map (personKey r) (locations r)).
Proof.
  intros Hg. split.
  - unfold locationsByPerson in Hg. apply group_fold_count in Hg.
    unfold sampleCount in Hg. rewrite Hg, map_fold_empty. done.
  - apply set_eq. intros k. rewrite elem_of_dom, (group_is_filter_aux r groups k Hg).
    rewrite elem_of_list_to_set, list_elem_of_fmap. split.
    + intros [g Hgk]. unfold groupOf in Hgk.
      destruct (filter (fun location => personKey r location = k) (locations r))
        as [|x xs] eqn:Hf; [done|].
      assert (Hx : x ∈ filter (fun location => personKey r location = k) (locations r))
        by (rewrite Hf; apply list_elem_of_here).
      apply list_elem_of_filter in Hx as [Hkx Hx]. by exists x.
    + intros (x & -> & Hx).
      assert (Hin : x ∈ filter (fun location => personKey r location = personKey r x)
                               (locations r)) by (by apply list_elem_of_filter).
      unfold groupOf.
      destruct (filter (fun location => personKey r location = personKey r x) (locations r));
        [by apply elem_of_nil in Hin | by eexists].
Qed.

Lemma group_sizes_add_up_witness :
  locationsByPerson (Some resultAB)
  = Some {[ "A" := [personSample (Some "A"); personSample (Some "A")];
            "B" := [personSample (Some "B")] ]}
  /\ map_fold (fun _ locs n => length locs + n) 0
       ({[ "A" := [personSample (Some "A"); personSample (Some "A")];
           "B" := [personSample (Some "B")] ]} : gmap string (list LocationData))
     = 3.
Proof.
  assert (Hg : locationsByPerson (Some resultAB)
               = Some {[ "A" := [personSample (Some "A"); personSample (Some "A")];
                         "B" := [personSample (Some "B")] ]}) by (vm_compute; reflexivity).
  split; [exact Hg|]. exact (proj1 (group_sizes_add_up resultAB _ Hg)).
Defined.

End GroupingFacts.

(** ** Clusters, paths and arrows per person *)

Module LayersFacts.
Import Clustering Visibility Layers Notions Samples.

Lemma clustersByPerson_lookup (groups : gmap string (list LocationData)) (showClusters : bool)
    (p : string) :
  clustersByPerson groups showClusters !! p = clustersFor showClusters p <$> groups !! p.
Proof.
  unfold clustersByPerson.
  apply (map_fold_weak_ind
           (fun result m => result !! p = clustersFor showClusters p <$> m !! p)).
  - by rewrite !lookup_empty.
  - intros i x m result Hi IH. destruct (decide (i = p)) as [->|Hne].
    + by rewrite !lookup_insert_eq.
    + by rewrite !lookup_insert_ne.
Qed.

Lemma pathsByPerson_lookup (groups : gmap string (list LocationData))
    (visiblePersons : gset string) (p : string) :
  pathsByPerson groups visiblePersons !! p
  = if bool_decide (p ∈ visiblePersons)
    then map (fun loc => (latitude loc, longitude loc)) <$> groups !! p
    else None.
Proof.
  unfold pathsByPerson.
  apply (map_fold_weak_ind
           (fun acc m => acc !! p
                         = if bool_decide (p ∈ visiblePersons)
                           then map (fun loc => (latitude loc, longitude loc)) <$> m !! p
                           else None)).
  - rewrite !lookup_empty. by destruct (bool_decide _).
  - intros i x m acc Hi IH. destruct (decide (i = p)) as [->|Hne].
    + destruct (bool_decide (p ∈ visiblePersons)); [by rewrite !lookup_insert_eq|done].
    + rewrite (lookup_insert_ne m) by done.
      destruct (bool_decide (i ∈ visiblePersons)); [by rewrite lookup_insert_ne|done].
Qed.

(** X10. Whether grouping of nearby points is on or off, the clusters of a
    person cover that person's samples exactly once, and no cluster is
    empty; with grouping off there is one cluster per sample, in order,
    centred on the sample and labelled with the person; a person without
    samples has no clusters. *)
Theorem clusters_of_person_cover_group (groups : gmap string (list LocationData))
    (showClusters : bool) (p : string) (locs : list LocationData) :
  groups !! p = Some locs ->
  (exists clusters : list ClusterItem,
     clustersByPerson groups showClusters !! p = Some clusters
     /\ concat (map cluster_locations clusters) ≡ₚ locs
     /\ Forall (fun c => cluster_locations c <> []) clusters
     /\ (showClusters = false ->
         clusters = map (fun loc => mkCluster [loc] (latitude loc, longitude loc) p) locs))
  /\ (forall q : string,
        groups !! q = None -> clustersByPerson groups showClusters !! q = None).
Proof.
  intros Hp. split.
  - rewrite clustersByPerson_lookup, Hp. simpl. eexists. split; [done|].
    unfold clustersFor. destruct showClusters.
    + rewrite ClusteringFacts.clusterLocations_greedy.
      split; [apply ClusteringFacts.greedy_coverage|].
      split; [apply ClusteringFacts.greedy_nonempty | done].
    + split; [|split; [|done]].
      * clear Hp. induction locs as [|x locs IH]; simpl; [done | by constructor].
      * apply Forall_forall. intros c Hc. apply list_elem_of_fmap in Hc as (x & -> & _). done.
  - intros q Hq. by rewrite clustersByPerson_lookup, Hq.
Qed.

Lemma clusters_of_person_cover_group_witness :
  ({[ "A" := [personSample (Some "A"); personSample (Some "A")] ]}
     : gmap string (list LocationData)) !! "A"
  = Some [personSample (Some "A"); personSample (Some "A")]
  /\ exists clusters : list ClusterItem,
       clustersByPerson {[ "A" := [personSample (Some "A"); personSample (Some "A")] ]} true
         !! "A" = Some clusters
       /\ concat (map cluster_locations clusters)
          ≡ₚ [personSample (Some "A"); personSample (Some "A")]
       /\ Forall (fun c => cluster_locations c <> []) clusters
       /\ (true = false ->
           clusters = map (fun loc => mkCluster [loc] (latitude loc, longitude loc) "A")
                          [personSample (Some "A"); personSample (Some "A")]).
Proof.
  assert (H : ({[ "A" := [personSample (Some "A"); personSample (Some "A")] ]}
                 : gmap string (list LocationData)) !! "A"
              = Some [personSample (Some "A"); personSample (Some "A")])
    by (vm_compute; reflexivity).
  split; [exact H|].
  exact (proj1 (clusters_of_person_cover_group _ true "A" _ H)).
Defined.

(** X11. [pathsByPerson] has a path exactly for the persons that are visible
    and have samples, and the path is the list of the coordinates of the
    person's samples, in order.  After a new result has reset the
    visibility, that is every person of the result; after a person is
    toggled off, that person's path is gone and the others are as
    before. *)
Theorem paths_follow_visibility (groups : gmap string (list LocationData))
    (st : State) (p : string) :
  pathsByPerson groups (visiblePersons st) !! p
  = (if bool_decide (p ∈ visiblePersons st)
     then map (fun loc => (latitude loc, longitude loc)) <$> groups !! p
     else None)
  /\ pathsByPerson groups (dom groups) !! p
     = map (fun loc => (latitude loc, longitude loc)) <$> groups !! p
  /\ (p ∈ visiblePersons st ->
      pathsByPerson groups (visiblePersons (togglePersonVisibility p st)) !! p = None
      /\ forall q : string,
           q <> p ->
           pathsByPerson groups (visiblePersons (togglePersonVisibility p st)) !! q
           = pathsByPerson groups (visiblePersons st) !! q).
Proof.
  split; [apply pathsByPerson_lookup|]. split.
  - rewrite pathsByPerson_lookup. destruct (groups !! p) as [locs|] eqn:Hp.
    + by rewrite bool_decide_eq_true_2 by (by apply elem_of_dom).
    + by destruct (bool_decide _).
  - intros Hvis. unfold togglePersonVisibility. simpl.
    rewrite (bool_decide_eq_true_2 _ Hvis). split.
    + rewrite pathsByPerson_lookup. by rewrite bool_decide_eq_false_2 by set_solver.
    + intros q Hq. rewrite !pathsByPerson_lookup.
      by rewrite (bool_decide_ext (q ∈ visiblePersons st ∖ {[p]}) (q ∈ visiblePersons st))
        by set_solver.
Qed.

Lemma paths_follow_visibility_witness :
  "A" ∈ visiblePersons (mkState true true true {[ "A"; "B" ]})
  /\ pathsByPerson {[ "A" := [personSample (Some "A")] ]}
       (visiblePersons (togglePersonVisibility "A" (mkState true true true {[ "A"; "B" ]})))
       !! "A" = None.
Proof.
  assert (H : "A" ∈ visiblePersons (mkState true true true {[ "A"; "B" ]}))
    by (simpl; set_solver).
  split; [exact H|].
  destruct (paths_follow_visibility {[ "A" := [personSample (Some "A")] ]}
              (mkState true true true {[ "A"; "B" ]}) "A") as (_ & _ & Htoggle).
  exact (proj1 (Htoggle H)).
Defined.

(** X12. Toggling a person twice restores the state; one toggle flips the
    visibility of that person only, and leaves the three display flags
    alone. *)
Theorem toggle_is_involution (p : string) (st : State) :
  togglePersonVisibility p (togglePersonVisibility p st) = st
  /\ (p ∈ visiblePersons (togglePersonVisibility p st) <-> p ∉ visiblePersons st)
  /\ (forall q : string,
        q <> p ->
        (q ∈ visiblePersons (togglePersonVisibility p st) <-> q ∈ visiblePersons st))
  /\ showPaths (togglePersonVisibility p st) = showPaths st
  /\ showArrows (togglePersonVisibility p st) = showArrows st
  /\ showClusters (togglePersonVisibility p st) = showClusters st.
Proof.
  destruct st as [sp sa sc vis]. unfold togglePersonVisibility. simpl.
  destruct (decide (p ∈ vis)) as [Hin|Hout].
  - rewrite (bool_decide_eq_true_2 _ Hin).
    rewrite (bool_decide_eq_false_2 (p ∈ vis ∖ {[p]})) by set_solver.
    split.
    + f_equal. apply set_eq. intros x. rewrite elem_of_union, elem_of_difference,
        elem_of_singleton. destruct (decide (x = p)) as [->|]; naive_solver.
    + repeat split; try done; set_solver.
  - rewrite (bool_decide_eq_false_2 _ Hout).
    rewrite (bool_decide_eq_true_2 (p ∈ {[p]} ∪ vis)) by set_solver.
    split.
    + f_equal. set_solver.
    + repeat split; try done; set_solver.
Qed.

End LayersFacts.

(** ** Arrows, latest sample and markers *)

Module OverlayFacts.
Import Clustering Visibility Layers Notions Samples MoreNotions.

Lemma arrowAt_Some (coordinates : list LatLng) (x : LatLng) (i : nat) :
  i + 1 < length coordinates ->
  exists next : LatLng,
    coordinates !! (i + 1) = Some next
    /\ arrowAt coordinates x i
       = Some (getMidpoint (fst x) (snd x) (fst next) (snd next)).
Proof.
  intros Hi. unfold arrowAt, LatLng in *.
  destruct (lookup_lt_is_Some_2 coordinates (i + 1) Hi) as [next Hnext].
  exists next. split; [done|]. by rewrite Hnext.
Qed.

Lemma mapIndexed_arrows (coordinates l : list LatLng) (i : nat) :
  (forall j x, l !! j = Some x -> coordinates !! (i + j) = Some x) ->
  i + length l < length coordinates \/ l = [] ->
  exists out : list LatLng,
    mapIndexed (arrowAt coordinates) l i = Some out
    /\ length out = length l
    /\ forall j a b,
         j < length l ->
         coordinates !! (i + j) = Some a -> coordinates !! (i + j + 1) = Some b ->
         out !! j = Some (getMidpoint (fst a) (snd a) (fst b) (snd b)).
Proof.
  revert i. induction l as [|x l IH]; intros i Hl Hlen; simpl.
  - exists []. repeat split. intros j a b Hj. simpl in Hj. lia.
  - destruct Hlen as [Hlen|]; [|done]. simpl in Hlen.
    destruct (arrowAt_Some coordinates x i) as (next & Hnext & Harrow); [lia|].
    rewrite Harrow.
    destruct (IH (S i)) as (out & Hout & Hlenout & Hmid).
    { intros j y Hy. replace (S i + j) with (i + S j) by lia. by apply Hl. }
    { left. lia. }
    rewrite Hout. eexists. split; [done|]. split; [simpl; lia|].
    intros j a b Hj Ha Hb. destruct j as [|j]; simpl.
    + pose proof (Hl 0 x eq_refl) as Hx. unfold LatLng in *.
      rewrite Nat.add_0_r in *. congruence.
    + apply Hmid; [simpl in Hj; lia | |].
      * by replace (S i + j) with (i + S j) by lia.
      * by replace (S i + j + 1) with (i + S j + 1) by lia.
Qed.

(** X13. Computing the arrows of a path never fails: a path of [n] points,
    [n >= 2], gets [n - 1] arrows, the arrow of index [i] at the midpoint of
    points [i] and [i + 1]; a shorter path gets none. *)
Theorem arrows_between_consecutive_points (coordinates : list LatLng) :
  exists arrows : list LatLng,
    arrowPositions coordinates = Some arrows
    /\ length arrows = length coordinates - 1
    /\ forall (i : nat) (a b : LatLng),
         coordinates !! i = Some a -> coordinates !! S i = Some b ->
         arrows !! i = Some (((fst a + fst b) / 2)%float, ((snd a + snd b) / 2)%float).
Proof.
  unfold arrowPositions. destruct (1 <? length coordinates)%nat eqn:Hlen.
  - apply Nat.ltb_lt in Hlen.
    destruct (mapIndexed_arrows coordinates (take (length coordinates - 1) coordinates) 0)
      as (out & Hout & Hlenout & Hmid).
    { intros j x Hj. simpl. apply lookup_take_Some in Hj. tauto. }
    { left. rewrite length_take. lia. }
    exists out. split; [done|]. rewrite length_take in *. split; [lia|].
    intros i a b Ha Hb. apply (Hmid i a b); simpl.
    + apply lookup_lt_Some in Hb. lia.
    + done.
    + by rewrite Nat.add_1_r.
  - apply Nat.ltb_ge in Hlen. exists []. split; [done|]. split; [simpl; lia|].
    intros i a b _ Hb. apply lookup_lt_Some in Hb. lia.
Qed.

Lemma ltb_nan_l (x y : float) : PrimFloat.is_nan x = true -> (x <? y)%float = false.
Proof.
  intros Hx. rewrite FloatAxioms.ltb_spec.
  apply ClusteringMore.is_nan_true in Hx. by rewrite Hx.
Qed.

Section LatestFacts.
Variable dateValue : string -> float.

Lemma fold_later_member (rest : list string) (acc : string) :
  fold_left (laterOf dateValue) rest acc = acc
  \/ fold_left (laterOf dateValue) rest acc ∈ rest.
Proof.
  revert acc. induction rest as [|x rest IH]; intros acc; simpl; [by left|].
  destruct (IH (laterOf dateValue acc x)) as [H|H]; [|right; by constructor].
  rewrite H. unfold laterOf. destruct (_ <? _)%float; [right; constructor | by left].
Qed.

Lemma fold_later_greatest (rest : list string) (acc : string) :
  PrimFloat.is_nan (dateValue acc) = false ->
  Forall (fun u => PrimFloat.is_nan (dateValue u) = false) rest ->
  (dateValue acc <=? dateValue (fold_left (laterOf dateValue) rest acc))%float = true
  /\ Forall (fun u => (dateValue u
                       <=? dateValue (fold_left (laterOf dateValue) rest acc))%float = true)
            rest.
Proof.
  intros Hacc Hrest. revert acc Hacc.
  induction Hrest as [|x rest Hx _ IH]; intros acc Hacc; simpl.
  - split; [by apply FloatFacts.leb_refl | constructor].
  - unfold laterOf at 2 4. destruct (dateValue acc <? dateValue x)%float eqn:Hlt.
    + destruct (IH x Hx) as [H1 H2]. split; [|by constructor].
      eapply FloatFacts.leb_trans; [by apply FloatFacts.ltb_leb|done].
    + destruct (IH acc Hacc) as [H1 H2]. split; [done|]. constructor; [|done].
      eapply FloatFacts.leb_trans; [|exact H1]. by apply FloatFacts.leb_of_not_ltb.
Qed.

Lemma fold_later_stuck (rest : list string) (acc : string) :
  PrimFloat.is_nan (dateValue acc) = true ->
  fold_left (laterOf dateValue) rest acc = acc.
Proof.
  intros Hacc. induction rest as [|x rest IH]; simpl; [done|].
  unfold laterOf at 2. by rewrite ltb_nan_l.
Qed.

(** X14. [latestTimestamp] is [null] exactly when there is no timestamp;
    otherwise it is one of the timestamps and, when all of them are valid
    dates, none is later.  When the first timestamp is not a valid date it
    is reported as the latest whatever follows. *)
Theorem latest_timestamp_spec (allTimestamps : list string) :
  (latestTimestamp dateValue allTimestamps = None <-> allTimestamps = [])
  /\ (forall t : string,
        latestTimestamp dateValue allTimestamps = Some t ->
        t ∈ allTimestamps
        /\ (Forall (fun u => PrimFloat.is_nan (dateValue u) = false) allTimestamps ->
            Forall (fun u => (dateValue u <=? dateValue t)%float = true) allTimestamps))
  /\ (forall first : string,
        head allTimestamps = Some first -> PrimFloat.is_nan (dateValue first) = true ->
        latestTimestamp dateValue allTimestamps = Some first).
Proof.
  destruct allTimestamps as [|first rest]; simpl.
  - split; [done|]. split; [by intros t|by intros first].
  - split; [done|]. split.
    + intros t [= <-]. split.
      * destruct (fold_later_member rest first) as [->|H]; by constructor.
      * intros Hall. inversion Hall as [|? ? Hfirst Hrest]; subst.
        destruct (fold_later_greatest rest first Hfirst Hrest). by constructor.
    + intros f [= <-] Hnan. by rewrite fold_later_stuck.
Qed.

End LatestFacts.

(** X14 with the hour written in digits as the date. *)
Lemma latest_timestamp_spec_witness :
  latestTimestamp (fun s => number_of_Z (Color.mathInt s)) ["8"; "11"; "9"] = Some "11"
  /\ "11" ∈ ["8"; "11"; "9"]
  /\ Forall (fun u => (number_of_Z (Color.mathInt u)
                       <=? number_of_Z (Color.mathInt "11"))%float = true)
            ["8"; "11"; "9"].
Proof.
  assert (H : latestTimestamp (fun s => number_of_Z (Color.mathInt s)) ["8"; "11"; "9"]
              = Some "11") by (vm_compute; reflexivity).
  destruct (latest_timestamp_spec (fun s => number_of_Z (Color.mathInt s)) ["8"; "11"; "9"])
    as (_ & Hmem & _).
  destruct (Hmem "11" H) as [Hin Hmax].
  split; [exact H|]. split; [exact Hin|]. apply Hmax. repeat constructor.
Defined.

Lemma drawCluster_Some (dateValue : string -> float) (locs : option LocationResponse)
    (person : string) (c : ClusterItem) (d : drawn) :
  drawCluster dateValue locs person c = Some d ->
  represented d = length (cluster_locations c)
  /\ (cluster_locations c <> [] ->
      match d with
      | ClusterBadge _ count _ => 2 <= count
      | PersonMarker _ _ _ _ => True
      end).
Proof.
  unfold drawCluster. destruct (cluster_locations c) as [|x [|y l]]; simpl.
  - intros [= <-]. done.
  - destruct (PrimFloat.is_nan _); [done|]. intros [= <-]. done.
  - intros [= <-]. simpl. split; [done|]. lia.
Qed.

Lemma drawCluster_None (dateValue : string -> float) (locs : option LocationResponse)
    (person : string) (c : ClusterItem) :
  drawCluster dateValue locs person c = None
  <-> exists l : LocationData, cluster_locations c = [l] /\ undated dateValue l.
Proof.
  unfold drawCluster, undated. destruct (cluster_locations c) as [|x [|y l]]; simpl.
  - split; [done | by intros (l & ? & _)].
  - destruct (PrimFloat.is_nan (dateValue (timestamp x))) eqn:Hx.
    + split; [by exists x | done].
    + split; [done | intros (l & [= <-] & Hl); congruence].
  - split; [done | by intros (l' & ? & _)].
Qed.

(** Drawing a list of clusters: every cluster is drawn, or one of them
    raises. *)
Lemma mapIndexed_draw (dateValue : string -> float) (locs : option LocationResponse)
    (person : string) (cs : list ClusterItem) (i : nat) :
  match mapIndexed (fun c (_ : nat) => drawCluster dateValue locs person c) cs i with
  | Some ds => Forall2 (fun c d => drawCluster dateValue locs person c = Some d) cs ds
  | None => Exists (fun c => drawCluster dateValue locs person c = None) cs
  end.
Proof.
  revert i. induction cs as [|c cs IH]; intros i; simpl; [constructor|].
  destruct (drawCluster dateValue locs person c) as [d|] eqn:Hd; [|by constructor].
  specialize (IH (S i)).
  destruct (mapIndexed _ cs (S i)) as [ds|]; [by constructor | by constructor 2].
Qed.

Lemma clustersFor_sizes (showClusters : bool) (person : string) (locs : list LocationData) :
  sum_list (map (fun c => length (cluster_locations c)) (clustersFor showClusters person locs))
  = length locs
  /\ Forall (fun c => cluster_locations c <> []) (clustersFor showClusters person locs).
Proof.
  unfold clustersFor. destruct showClusters.
  - rewrite ClusteringFacts.clusterLocations_greedy.
    rewrite <- ClusteringFacts.length_concat_clusters.
    split; [apply Permutation_length, ClusteringFacts.greedy_coverage|].
    apply ClusteringFacts.greedy_nonempty.
  - split.
    + induction locs as [|x locs IH]; simpl; [done | by rewrite IH].
    + apply Forall_forall. intros c Hc. apply list_elem_of_fmap in Hc as (x & -> & _). done.
Qed.

(** The members of the clusters of a person are samples of the person. *)
Lemma clustersFor_members (showClusters : bool) (person : string) (locs : list LocationData)
    (c : ClusterItem) (l : LocationData) :
  c ∈ clustersFor showClusters person locs -> l ∈ cluster_locations c -> l ∈ locs.
Proof.
  unfold clustersFor. destruct showClusters.
  - rewrite ClusteringFacts.clusterLocations_greedy. intros Hc Hl.
    rewrite <- (ClusteringFacts.greedy_coverage defaultThreshold locs).
    apply list_elem_of_In, in_concat. exists (cluster_locations c).
    split; [|by apply list_elem_of_In]. apply in_map. by apply list_elem_of_In.
  - intros Hc Hl. apply list_elem_of_fmap in Hc as (x & -> & Hx). simpl in Hl.
    apply list_elem_of_singleton in Hl as ->. done.
Qed.

Lemma drawn_sizes (dateValue : string -> float) (locs : option LocationResponse)
    (person : string) (cs : list ClusterItem) (ds : list drawn) :
  Forall2 (fun c d => drawCluster dateValue locs person c = Some d) cs ds ->
  sum_list (map represented ds) = sum_list (map (fun c => length (cluster_locations c)) cs)
  /\ (Forall (fun c => cluster_locations c <> []) cs ->
      Forall (fun d => match d with
                       | ClusterBadge _ count _ => 2 <= count
                       | PersonMarker _ _ _ _ => True
                       end) ds).
Proof.
  induction 1 as [|c d cs ds Hd _ [IH1 IH2]]; simpl; [by split|].
  destruct (drawCluster_Some _ _ _ _ _ Hd) as [Hr Hb]. split; [by rewrite Hr, IH1|].
  intros Hne. inversion Hne; subst. constructor; [by apply Hb | by apply IH2].
Qed.

(** X15. Take a visible person.  When every timestamp of the person's
    samples denotes a date, the markers are drawn; and whenever they are
    drawn they stand for every sample of the person exactly once: the badge
    counts and the single markers add up to the number of the person's
    samples, and a badge never shows fewer than two.  Drawing raises exactly
    when a sample that is alone in its cluster has a timestamp that denotes
    no date; without grouping that is when some sample has such a
    timestamp.  For a hidden person nothing is drawn and nothing raises. *)
Theorem drawn_markers_account_for_samples (dateValue : string -> float)
    (locs : option LocationResponse) (visible : gset string) (showClusters : bool)
    (person : string) (samples : list LocationData) :
  (person ∈ visible ->
   (Forall (fun l => ~ undated dateValue l) samples ->
    exists ds : list drawn,
      drawPerson dateValue locs visible person (clustersFor showClusters person samples)
      = Some ds)
   /\ (forall ds : list drawn,
         drawPerson dateValue locs visible person (clustersFor showClusters person samples)
         = Some ds ->
         sum_list (map represented ds) = length samples
         /\ Forall (fun d => match d with
                             | ClusterBadge _ count _ => 2 <= count
                             | PersonMarker _ _ _ _ => True
                             end) ds)
   /\ (drawPerson dateValue locs visible person (clustersFor showClusters person samples)
       = None
       <-> Exists (fun c => exists l : LocationData,
                      cluster_locations c = [l] /\ undated dateValue l)
                  (clustersFor showClusters person samples))
   /\ (drawPerson dateValue locs visible person (clustersFor false person samples) = None
       <-> Exists (undated dateValue) samples))
  /\ (person ∉ visible ->
      drawPerson dateValue locs visible person (clustersFor showClusters person samples)
      = Some []).
Proof.
  assert (Hraise : forall cs : list ClusterItem,
             mapIndexed (fun c (_ : nat) => drawCluster dateValue locs person c) cs 0 = None
             <-> Exists (fun c => exists l : LocationData,
                            cluster_locations c = [l] /\ undated dateValue l) cs).
  { intros cs. pose proof (mapIndexed_draw dateValue locs person cs 0) as H.
    destruct (mapIndexed _ cs 0) as [ds|].
    - split; [done|]. intros Hex. exfalso.
      apply Exists_exists in Hex as (c & Hc & Hbad).
      apply (proj2 (drawCluster_None dateValue locs person c)) in Hbad.
      apply list_elem_of_lookup in Hc as (j & Hj).
      destruct (Forall2_lookup_l _ _ _ _ _ H Hj) as (d & _ & Hd). congruence.
    - split; [|done]. intros _. eapply Exists_impl; [exact H|].
      intros c Hc. exact (proj1 (drawCluster_None dateValue locs person c) Hc). }
  unfold drawPerson. split.
  - intros Hvis. rewrite !(bool_decide_eq_true_2 _ Hvis).
    destruct (clustersFor_sizes showClusters person samples) as [Hsum Hne].
    split; [|split; [|split]].
    + intros Hall.
      destruct (mapIndexed _ (clustersFor showClusters person samples) 0) as [ds|] eqn:Hds;
        [by exists ds|].
      exfalso. apply Hraise in Hds. apply Exists_exists in Hds as (c & Hc & l & Hl & Hbad).
      assert (Hin : l ∈ samples).
      { apply (clustersFor_members showClusters person samples c l Hc).
        rewrite Hl. by constructor. }
      rewrite Forall_forall in Hall. by apply (Hall l Hin).
    + intros ds Hds.
      pose proof (mapIndexed_draw dateValue locs person
                    (clustersFor showClusters person samples) 0) as H.
      rewrite Hds in H. destruct (drawn_sizes _ _ _ _ _ H) as [H1 H2].
      split; [by rewrite H1 | by apply H2].
    + apply Hraise.
    + rewrite Hraise. unfold clustersFor. rewrite !Exists_exists. split.
      * intros (c & Hc & l & Hl & Hbad). exists l. split; [|done].
        apply list_elem_of_fmap in Hc as (x & -> & Hx). simpl in Hl. by injection Hl as ->.
      * intros (l & Hl & Hbad). eexists. split.
        -- apply list_elem_of_fmap. by exists l.
        -- by exists l.
  - intros Hhid. by rewrite (bool_decide_eq_false_2 _ Hhid).
Qed.

(** X15 on four samples of one person, with the hour written in digits as
    the date. *)
Lemma drawn_markers_account_for_samples_witness :
  "person1" ∈ ({[ "person1" ]} : gset string)
  /\ exists ds : list drawn,
       drawPerson (fun s => number_of_Z (Color.mathInt s)) None {[ "person1" ]}
         "person1" (clustersFor true "person1" fourSamples) = Some ds
       /\ sum_list (map represented ds) = 4.
Proof.
  assert (H : "person1" ∈ ({[ "person1" ]} : gset string)) by set_solver.
  split; [exact H|].
  destruct (drawn_markers_account_for_samples (fun s => number_of_Z (Color.mathInt s))
              None {[ "person1" ]} true "person1" fourSamples) as [Hvis _].
  destruct (Hvis H) as (Hdraws & Hcount & _).
  destruct Hdraws as [ds Hds].
  { unfold undated. repeat constructor; vm_compute; discriminate. }
  exists ds. split; [exact Hds|]. exact (proj1 (Hcount ds Hds)).
Defined.

End OverlayFacts.

(** ** Overlapping calls of [handleQuery], the directory, the form *)

Module PageMore.
Import Page Notions Samples MoreNotions.

(** X16. Along any interleaving of calls of [handleQuery]: [loading] is
    what the last event made it, set by a submission and cleared by any
    settling, so the first answer to arrive clears it while other calls are
    still pending; every failed call has added exactly one alert and no
    alert is ever removed; and what is displayed is either what was
    displayed at the start or the body of a success response of the
    trace. *)
Theorem handleQuery_trace_invariants (h : Home) (trace : list event) :
  loading (run h trace)
  = match last trace with
    | None => loading h
    | Some (Submit _) => true
    | Some (Settle _ _) => false
    end
  /\ alerts (run h trace) = alerts h ++ replicate (failures trace) alertMessage
  /\ (locations (run h trace) = locations h
      \/ exists (q : string) (data : LocationResponse),
           Settle q (Response true (Some data)) ∈ trace
           /\ locations (run h trace) = Some data).
Proof.
  induction trace as [|e trace IH] using rev_ind.
  - simpl. split; [done|]. split; [by rewrite app_nil_r | by left].
  - destruct IH as (Hload & Halerts & Hloc).
    rewrite PageFacts.run_app, last_snoc. unfold failures in *.
    rewrite filter_app, length_app, replicate_add, app_assoc, <- Halerts.
    simpl. destruct e as [q|q [|[] [data|]]]; simpl.
    + split; [done|]. split; [by rewrite app_nil_r|].
      destruct Hloc as [Hloc|(q' & d & Hin & Hloc)]; [by left|].
      right. exists q', d. split; [|done]. apply elem_of_app. by left.
    + split; [done|]. split; [done|].
      destruct Hloc as [Hloc|(q' & d & Hin & Hloc)]; [by left|].
      right. exists q', d. split; [|done]. apply elem_of_app. by left.
    + split; [done|]. split; [by rewrite app_nil_r|].
      right. exists q, data. split; [|done]. apply elem_of_app. right. constructor.
    + split; [done|]. split; [done|].
      destruct Hloc as [Hloc|(q' & d & Hin & Hloc)]; [by left|].
      right. exists q', d. split; [|done]. apply elem_of_app. by left.
    + split; [done|]. split; [done|].
      destruct Hloc as [Hloc|(q' & d & Hin & Hloc)]; [by left|].
      right. exists q', d. split; [|done]. apply elem_of_app. by left.
    + split; [done|]. split; [done|].
      destruct Hloc as [Hloc|(q' & d & Hin & Hloc)]; [by left|].
      right. exists q', d. split; [|done]. apply elem_of_app. by left.
Qed.

End PageMore.

Module DirectoryFacts.
Import Directory MoreNotions.

(** X17. The list of persons after the directory request: a success
    response installs the persons it carries, whatever they are, and the
    empty list when it carries none; a non-success response leaves the list
    as it is; the fallback list is installed when the request throws (the
    [fetch] is rejected, or the body of a success response cannot be decoded
    or is [null]), and, over all prior lists, only then or when the server
    sent that very list.  So, starting from the empty list, example queries
    are offered exactly when the request threw or answered with success and
    at least one person; and there are then two of them for one person and
    five for more. *)
Theorem examples_offered_iff (o : outcome) (availablePersons : list string) :
  (forall persons : list string,
     o = Response true (Data (Some persons)) -> fetchPersons o availablePersons = persons)
  /\ (o = Response true (Data None) -> fetchPersons o availablePersons = [])
  /\ (forall b : body, o = Response false b -> fetchPersons o availablePersons = availablePersons)
  /\ (requestThrows o -> fetchPersons o availablePersons = ["person1"; "person2"])
  /\ ((forall prior : list string, fetchPersons o prior = ["person1"; "person2"])
      <-> requestThrows o \/ o = Response true (Data (Some ["person1"; "person2"])))
  /\ (exampleQueries (fetchPersons o []) <> []
      <-> requestThrows o \/ exists p ps, o = Response true (Data (Some (p :: ps))))
  /\ length (exampleQueries availablePersons)
     = match availablePersons with
       | [] => 0
       | [_] => 2
       | _ => 5
       end.
Proof.
  unfold requestThrows.
  split; [by intros persons ->|]. split; [by intros ->|]. split; [by intros b ->|].
  split; [by intros [->|[->| ->]]|]. split; [|split].
  - destruct o as [|[] [| |[ps|]]]; simpl;
      (split; [intros H; specialize (H []) | intros [[|[|]]|] prior]);
      try done; try congruence;
      try (by left; left); try (by left; right; left); try (by left; right; right).
    right. by rewrite H.
  - destruct o as [|[] [| |[[|p ps]|]]]; simpl; split; try done;
      try (intros _; left; by eauto);
      try (intros _; right; by eauto);
      try (intros [[|[|]]|(p' & ps' & ?)]; done).
  - by destruct availablePersons as [|p [|p' ps]].
Qed.

(** X17 on a prior list of one person. *)
Lemma examples_offered_iff_witness :
  fetchPersons (Response false Undecodable) ["person7"] = ["person7"]
  /\ fetchPersons Rejected ["person7"] = ["person1"; "person2"]
  /\ fetchPersons (Response true Null) ["person7"] = ["person1"; "person2"]
  /\ fetchPersons (Response true (Data (Some ["person3"]))) ["person7"] = ["person3"].
Proof.
  destruct (examples_offered_iff (Response false Undecodable) ["person7"])
    as (_ & _ & Hkeep & _).
  destruct (examples_offered_iff Rejected ["person7"]) as (_ & _ & _ & Hfall & _).
  destruct (examples_offered_iff (Response true Null) ["person7"])
    as (_ & _ & _ & Hnull & _).
  destruct (examples_offered_iff (Response true (Data (Some ["person3"]))) ["person7"])
    as (Hown & _).
  split; [exact (Hkeep Undecodable eq_refl)|].
  split; [exact (Hfall (or_introl eq_refl))|].
  split; [exact (Hnull (or_intror (or_intror eq_refl)))|].
  exact (Hown ["person3"] eq_refl).
Defined.

End DirectoryFacts.

Module QueryFormFacts.
Import QueryForm.

Lemma trimStart_spec (s : string) :
  exists pre : list ascii,
    list_ascii_of_string s = pre ++ list_ascii_of_string (trimStart s)
    /\ Forall (fun c => is_white c = true) pre
    /\ forall c, head (list_ascii_of_string (trimStart s)) = Some c -> is_white c = false.
Proof.
  induction s as [|c s (pre & Hs & Hpre & Hhead)]; simpl.
  - exists []. by repeat split.
  - destruct (is_white c) eqn:Hc.
    + exists (c :: pre). split; [by rewrite Hs|]. split; [by constructor|done].
    + exists []. split; [done|]. split; [constructor|]. simpl. by intros ? [= <-].
Qed.

Lemma trimEnd_spec (s : string) :
  exists post : list ascii,
    list_ascii_of_string s = list_ascii_of_string (trimEnd s) ++ post
    /\ Forall (fun c => is_white c = true) post
    /\ (forall c, last (list_ascii_of_string (trimEnd s)) = Some c -> is_white c = false)
    /\ (trimEnd s = EmptyString \/ head (list_ascii_of_string (trimEnd s)) = head (list_ascii_of_string s)).
Proof.
  induction s as [|c s (post & Hs & Hpost & Hlast & Hhead)]; simpl.
  - exists []. repeat split; [constructor | done | by left].
  - destruct (trimEnd s) as [|d r] eqn:Hr.
    + simpl in Hs. destruct (is_white c) eqn:Hc.
      * exists (c :: post). rewrite Hs. repeat split; [by constructor | done | by left].
      * exists post. rewrite Hs. repeat split; [done| |by right].
        simpl. by intros ? [= <-].
    + exists post. rewrite Hs. repeat split; [done| |by right].
      intros c' Hc'. apply Hlast. by simpl in *.
Qed.

Lemma trimStart_id (s : string) :
  (forall c, head (list_ascii_of_string s) = Some c -> is_white c = false) -> trimStart s = s.
Proof. destruct s as [|c s]; [done|]. simpl. intros H. by rewrite (H c). Qed.

Lemma trimEnd_id (s : string) :
  (forall c, last (list_ascii_of_string s) = Some c -> is_white c = false) -> trimEnd s = s.
Proof.
  induction s as [|c s IH]; [done|]. simpl. intros H.
  destruct s as [|d s].
  - simpl in *. by rewrite (H c).
  - rewrite IH by (intros c' Hc'; apply H; by simpl in *). done.
Qed.

(** What [trim] returns: the string without a white prefix and a white
    suffix, neither starting nor ending with white space. *)
Lemma trim_spec (s : string) :
  exists pre post : list ascii,
    list_ascii_of_string s = pre ++ list_ascii_of_string (trim s) ++ post
    /\ Forall (fun c => is_white c = true) pre
    /\ Forall (fun c => is_white c = true) post
    /\ (forall c, head (list_ascii_of_string (trim s)) = Some c -> is_white c = false)
    /\ (forall c, last (list_ascii_of_string (trim s)) = Some c -> is_white c = false).
Proof.
  unfold trim.
  destruct (trimStart_spec s) as (pre & Hs & Hpre & Hhead).
  destruct (trimEnd_spec (trimStart s)) as (post & Ht & Hpost & Hlast & Hkeep).
  exists pre, post. rewrite Hs, Ht at 1. repeat split; try done.
  intros c Hc. destruct Hkeep as [He|He]; [by rewrite He in Hc|].
  apply Hhead. by rewrite <- He.
Qed.

Lemma string_of_no_chars (s : string) : list_ascii_of_string s = [] -> s = EmptyString.
Proof. by destruct s. Qed.

(** X18. [handleSubmit] calls [onSubmit] with the query cleared of its
    leading and trailing white space, and only when something is left: the
    submitted text is not empty, neither starts nor ends with white space,
    is the query without a white prefix and a white suffix, and trimming it
    again changes nothing.  A query of white space only is never submitted;
    and the submit button is enabled exactly when no query is loading and
    [handleSubmit] would submit. *)
Theorem submitted_query_is_trimmed (query : string) :
  (forall t : string,
     handleSubmit query = Some t ->
     t <> EmptyString
     /\ (exists pre post : list ascii,
           list_ascii_of_string query = pre ++ list_ascii_of_string t ++ post
           /\ Forall (fun c => is_white c = true) pre
           /\ Forall (fun c => is_white c = true) post)
     /\ (forall c, head (list_ascii_of_string t) = Some c -> is_white c = false)
     /\ (forall c, last (list_ascii_of_string t) = Some c -> is_white c = false)
     /\ trim t = t)
  /\ (handleSubmit query = None
      <-> Forall (fun c => is_white c = true) (list_ascii_of_string query))
  /\ (forall loading : bool,
        submitDisabled loading query = false
        <-> loading = false /\ handleSubmit query <> None).
Proof.
  destruct (trim_spec query) as (pre & post & Hq & Hpre & Hpost & Hhead & Hlast).
  unfold handleSubmit, submitDisabled. split; [|split].
  - intros t Ht. destruct (String.eqb_spec (trim query) "") as [|Hne]; [done|].
    injection Ht as <-. split; [done|]. split; [by exists pre, post|].
    split; [done|]. split; [done|].
    unfold trim at 1. by rewrite trimStart_id, trimEnd_id.
  - destruct (String.eqb_spec (trim query) "") as [He|Hne]; split; try done.
    + intros _. rewrite Hq, He. simpl. by apply Forall_app.
    + intros Hall. exfalso. apply Hne. apply string_of_no_chars.
      destruct (list_ascii_of_string (trim query)) as [|c l] eqn:Hc; [done|].
      exfalso. rewrite Hq in Hall. apply Forall_app in Hall as [_ Hall].
      inversion Hall as [|? ? Hw _]; subst.
      rewrite (Hhead c) in Hw by done. done.
  - intros loading. destruct loading, (String.eqb (trim query) ""); simpl; split;
      try done; try (by intros [? ?]); by intros [_ H].
Qed.

Lemma submitted_query_is_trimmed_witness :
  handleSubmit "  Where was person1 at 3pm? " = Some "Where was person1 at 3pm?"
  /\ trim "Where was person1 at 3pm?" = "Where was person1 at 3pm?".
Proof.
  assert (H : handleSubmit "  Where was person1 at 3pm? " = Some "Where was person1 at 3pm?")
    by reflexivity.
  split; [exact H|].
  destruct (submitted_query_is_trimmed "  Where was person1 at 3pm? ") as (Hsub & _).
  destruct (Hsub _ H) as (_ & _ & _ & _ & Hid). exact Hid.
Defined.

End QueryFormFacts.

(** ** The viewport does not depend on the order of the samples *)

Module ViewportMore.
Import Viewport Notions Samples.

Lemma min_from_nan (xs : list float) (lowest : float) :
  Exists (fun x => PrimFloat.is_nan x = true) xs -> min_from lowest xs = PrimFloat.nan.
Proof.
  intros H. revert lowest. induction xs as [|x xs IH]; intros lowest; [by inversion H|].
  simpl. destruct (PrimFloat.is_nan x) eqn:Hx; [done|].
  assert (Hrest : Exists (fun x => PrimFloat.is_nan x = true) xs)
    by (inversion H; [congruence | done]).
  destruct (_ && _); [by apply IH|]. destruct (_ <? _)%float; by apply IH.
Qed.

Lemma max_from_nan (xs : list float) (highest : float) :
  Exists (fun x => PrimFloat.is_nan x = true) xs -> max_from highest xs = PrimFloat.nan.
Proof.
  intros H. revert highest. induction xs as [|x xs IH]; intros highest; [by inversion H|].
  simpl. destruct (PrimFloat.is_nan x) eqn:Hx; [done|].
  assert (Hrest : Exists (fun x => PrimFloat.is_nan x = true) xs)
    by (inversion H; [congruence | done]).
  destruct (_ && _); [by apply IH|]. destruct (_ <? _)%float; by apply IH.
Qed.

Lemma is_neg_zero_spec (x : float) : is_neg_zero x = true <-> Prim2SF x = S754_zero true.
Proof.
  unfold is_neg_zero. split.
  - intros H. apply (ViewportFacts.classify_zero x true). by destruct (PrimFloat.classify x).
  - intros H. by rewrite classify_spec, H.
Qed.

Lemma is_pos_zero_spec (x : float) : is_pos_zero x = true <-> Prim2SF x = S754_zero false.
Proof.
  unfold is_pos_zero. split.
  - intros H. apply (ViewportFacts.classify_zero x false). by destruct (PrimFloat.classify x).
  - intros H. by rewrite classify_spec, H.
Qed.

(** Nothing is both at least [+0] and strictly below [-0]. *)
Lemma no_number_between_zeros (r x lo : float) :
  is_pos_zero r = true -> is_neg_zero lo = true ->
  (r <=? x)%float = true -> (x <? lo)%float = true -> False.
Proof.
  rewrite is_pos_zero_spec, is_neg_zero_spec, FloatAxioms.leb_spec, FloatAxioms.ltb_spec.
  intros -> ->. unfold SFleb, SFltb, SFcompare.
  by destruct (Prim2SF x) as [[]|[]| |[] m e].
Qed.

(** A number between [+0] and [-0] is a zero. *)
Lemma zero_between_zeros (r x lo : float) :
  is_pos_zero r = true -> is_neg_zero x = true ->
  (r <=? lo)%float = true -> (lo <=? x)%float = true ->
  is_pos_zero lo = true \/ is_neg_zero lo = true.
Proof.
  rewrite !is_pos_zero_spec, !is_neg_zero_spec, !FloatAxioms.leb_spec.
  intros -> ->. unfold SFleb, SFcompare.
  destruct (Prim2SF lo) as [[]|[]| |[] m e]; try done; auto.
Qed.

(** When [min_from] returns [+0], no [-0] was at hand. *)
Lemma min_from_pos_zero (xs : list float) (lowest : float) :
  Forall not_nan xs -> not_nan lowest ->
  is_pos_zero (min_from lowest xs) = true ->
  is_neg_zero lowest = false /\ Forall (fun x => is_neg_zero x = false) xs.
Proof.
  intros Hxs. revert lowest. induction Hxs as [|x xs Hx Hxs IH]; intros lowest Hl; simpl.
  - intros Hr. split; [|constructor].
    destruct (is_neg_zero lowest) eqn:Hn; [|done].
    apply is_neg_zero_spec in Hn. apply is_pos_zero_spec in Hr. congruence.
  - rewrite Hx. destruct (is_neg_zero x && is_pos_zero lowest) eqn:Hswap.
    + intros Hr. destruct (IH x Hx Hr) as [Hnx _].
      apply andb_true_iff in Hswap as [Hswap _]. congruence.
    + destruct (x <? lowest)%float eqn:Hlt; intros Hr.
      * destruct (IH x Hx Hr) as [Hnx Hrest]. split; [|by constructor].
        destruct (is_neg_zero lowest) eqn:Hn; [|done]. exfalso.
        destruct (ViewportFacts.min_from_spec xs x Hxs Hx) as (_ & _ & Hle & _).
        by apply (no_number_between_zeros (min_from x xs) x lowest).
      * destruct (IH lowest Hl Hr) as [Hnl Hrest]. split; [done|]. constructor; [|done].
        destruct (is_neg_zero x) eqn:Hn; [|done]. exfalso.
        destruct (ViewportFacts.min_from_spec xs lowest Hxs Hl) as (_ & _ & Hle & _).
        destruct (zero_between_zeros (min_from lowest xs) x lowest) as [Hp|Hp];
          [done | done | done | by apply FloatFacts.leb_of_not_ltb | | congruence].
        by rewrite Hp in Hswap.
Qed.

(** When [max_from] returns [-0], no [+0] was at hand. *)
Lemma max_from_neg_zero (xs : list float) (highest : float) :
  Forall not_nan xs -> not_nan highest ->
  is_neg_zero (max_from highest xs) = true ->
  is_pos_zero highest = false /\ Forall (fun x => is_pos_zero x = false) xs.
Proof.
  intros Hxs. revert highest. induction Hxs as [|x xs Hx Hxs IH]; intros highest Hh; simpl.
  - intros Hr. split; [|constructor].
    destruct (is_pos_zero highest) eqn:Hn; [|done].
    apply is_pos_zero_spec in Hn. apply is_neg_zero_spec in Hr. congruence.
  - rewrite Hx. destruct (is_pos_zero x && is_neg_zero highest) eqn:Hswap.
    + intros Hr. destruct (IH x Hx Hr) as [Hnx _].
      apply andb_true_iff in Hswap as [Hswap _]. congruence.
    + destruct (highest <? x)%float eqn:Hlt; intros Hr.
      * destruct (IH x Hx Hr) as [Hnx Hrest]. split; [|by constructor].
        destruct (is_pos_zero highest) eqn:Hn; [|done]. exfalso.
        destruct (ViewportFacts.max_from_spec xs x Hxs Hx) as (_ & _ & Hle & _).
        revert Hn Hr Hle Hlt.
        rewrite is_pos_zero_spec, is_neg_zero_spec, FloatAxioms.leb_spec,
          FloatAxioms.ltb_spec.
        intros -> ->. unfold SFleb, SFltb, SFcompare.
        by destruct (Prim2SF x) as [[]|[]| |[] m e].
      * destruct (IH highest Hh Hr) as [Hnl Hrest]. split; [done|]. constructor; [|done].
        destruct (is_pos_zero x) eqn:Hn; [|done]. exfalso.
        destruct (ViewportFacts.max_from_spec xs highest Hxs Hh) as (_ & _ & Hle & _).
        pose proof (FloatFacts.leb_of_not_ltb highest x Hh Hx Hlt) as Hxh.
        assert (Hz : is_pos_zero highest = true \/ is_neg_zero highest = true).
        { revert Hn Hr Hle Hxh.
          rewrite !is_pos_zero_spec, !is_neg_zero_spec, !FloatAxioms.leb_spec.
          intros -> ->. unfold SFleb, SFcompare.
          destruct (Prim2SF highest) as [[]|[]| |[] m e]; try done; auto. }
        destruct Hz as [Hp|Hp]; [congruence|]. by rewrite Hp in Hswap.
Qed.

(** Two numbers below each other are the same number or the two zeros. *)
Lemma leb_antisym (a b : float) :
  (a <=? b)%float = true -> (b <=? a)%float = true ->
  a = b \/ (is_pos_zero a = true /\ is_neg_zero b = true)
  \/ (is_neg_zero a = true /\ is_pos_zero b = true).
Proof.
  rewrite !is_pos_zero_spec, !is_neg_zero_spec, !FloatAxioms.leb_spec.
  intros Hab Hba.
  assert (H : Prim2SF a = Prim2SF b
              \/ (Prim2SF a = S754_zero false /\ Prim2SF b = S754_zero true)
              \/ (Prim2SF a = S754_zero true /\ Prim2SF b = S754_zero false)).
  { revert Hab Hba. unfold SFleb, SFcompare.
    destruct (Prim2SF a) as [[]|[]| |[] m1 e1], (Prim2SF b) as [[]|[]| |[] m2 e2];
      try done; auto; intros Hab Hba;
      destruct (Z.compare_spec e1 e2), (Z.compare_spec e2 e1); try done; try lia;
      change (Pos.compare_cont Eq m1 m2) with (Pos.compare m1 m2) in *;
      change (Pos.compare_cont Eq m2 m1) with (Pos.compare m2 m1) in *;
      destruct (Pos.compare_spec m1 m2), (Pos.compare_spec m2 m1);
      try done; try lia; left; by subst. }
  destruct H as [H|H]; [left; by apply Prim2SF_inj | by right].
Qed.

Lemma has_nan_dec (xs : list float) :
  Exists (fun x => PrimFloat.is_nan x = true) xs \/ Forall not_nan xs.
Proof.
  induction xs as [|x xs [IH|IH]]; [right; constructor | left; by constructor |].
  destruct (PrimFloat.is_nan x) eqn:Hx; [left; by constructor | right; by constructor].
Qed.

(** [Math.min] and [Math.max] do not depend on the order of their
    arguments. *)
Lemma Math_min_perm (xs ys : list float) : xs ≡ₚ ys -> Math_min xs = Math_min ys.
Proof.
  intros Hp. destruct (has_nan_dec xs) as [Hnan|Hok].
  - unfold Math_min. rewrite !min_from_nan; [done| |done]. by rewrite <- Hp.
  - assert (Hok' : Forall not_nan ys) by (by rewrite <- Hp).
    destruct xs as [|x xs]; [apply Permutation_nil_l in Hp; by subst|].
    assert (Hne : ys <> []) by (intros ->; by apply Permutation_nil_r in Hp).
    destruct (ViewportFacts.Math_min_least (x :: xs)) as [Hin1 Hle1]; [done|done|].
    destruct (ViewportFacts.Math_min_least ys) as [Hin2 Hle2]; [done|done|].
    rewrite Forall_forall in Hle1, Hle2.
    assert (H12 : (Math_min (x :: xs) <=? Math_min ys)%float = true)
      by (apply Hle1; by rewrite Hp).
    assert (H21 : (Math_min ys <=? Math_min (x :: xs))%float = true)
      by (apply Hle2; by rewrite <- Hp).
    destruct (leb_antisym _ _ H12 H21) as [H|[[Hz1 Hz2]|[Hz1 Hz2]]]; [done| |]; exfalso.
    + destruct (min_from_pos_zero (x :: xs) PrimFloat.infinity Hok eq_refl Hz1) as [_ Hno].
      rewrite Forall_forall in Hno. rewrite (Hno (Math_min ys)) in Hz2; [done|].
      by rewrite Hp.
    + destruct (min_from_pos_zero ys PrimFloat.infinity Hok' eq_refl Hz2) as [_ Hno].
      rewrite Forall_forall in Hno. rewrite (Hno (Math_min (x :: xs))) in Hz1; [done|].
      by rewrite <- Hp.
Qed.

Lemma Math_max_perm (xs ys : list float) : xs ≡ₚ ys -> Math_max xs = Math_max ys.
Proof.
  intros Hp. destruct (has_nan_dec xs) as [Hnan|Hok].
  - unfold Math_max. rewrite !max_from_nan; [done| |done]. by rewrite <- Hp.
  - assert (Hok' : Forall not_nan ys) by (by rewrite <- Hp).
    destruct xs as [|x xs]; [apply Permutation_nil_l in Hp; by subst|].
    assert (Hne : ys <> []) by (intros ->; by apply Permutation_nil_r in Hp).
    destruct (ViewportFacts.Math_max_greatest (x :: xs)) as [Hin1 Hle1]; [done|done|].
    destruct (ViewportFacts.Math_max_greatest ys) as [Hin2 Hle2]; [done|done|].
    rewrite Forall_forall in Hle1, Hle2.
    assert (H12 : (Math_max (x :: xs) <=? Math_max ys)%float = true)
      by (apply Hle2; by rewrite <- Hp).
    assert (H21 : (Math_max ys <=? Math_max (x :: xs))%float = true)
      by (apply Hle1; by rewrite Hp).
    destruct (leb_antisym _ _ H12 H21) as [H|[[Hz1 Hz2]|[Hz1 Hz2]]]; [done| |]; exfalso.
    + destruct (max_from_neg_zero ys PrimFloat.neg_infinity Hok' eq_refl Hz2) as [_ Hno].
      rewrite Forall_forall in Hno. rewrite (Hno (Math_max (x :: xs))) in Hz1; [done|].
      by rewrite <- Hp.
    + destruct (max_from_neg_zero (x :: xs) PrimFloat.neg_infinity Hok eq_refl Hz1)
        as [_ Hno].
      rewrite Forall_forall in Hno. rewrite (Hno (Math_max ys)) in Hz2; [done|].
      by rewrite Hp.
Qed.

Lemma getMapBounds_many (r : LocationResponse) :
  2 <= length (locations r) ->
  getMapBounds (Some r)
  = mkBounds ((Math_min (map latitude (locations r)) + Math_max (map latitude (locations r))) / 2,
              (Math_min (map longitude (locations r))
               + Math_max (map longitude (locations r))) / 2)%float 14.
Proof.
  intros Hlen. unfold getMapBounds.
  destruct (locations r) as [|a [|b rest]]; simpl in Hlen; [lia | lia |].
  by rewrite !map_map.
Qed.

(** X19. The suggested viewport depends on the set of samples only, not on
    their order: two responses whose locations are rearrangements of each
    other get the same centre and zoom, [NaN] coordinates and signed zeros
    included. *)
Theorem map_bounds_order_independent (r1 r2 : LocationResponse) :
  locations r1 ≡ₚ locations r2 -> getMapBounds (Some r1) = getMapBounds (Some r2).
Proof.
  intros Hp. pose proof (Permutation_length Hp) as Hlen.
  destruct (le_lt_dec 2 (length (locations r1))) as [Hbig|Hsmall].
  - rewrite !getMapBounds_many by lia.
    rewrite (Math_min_perm _ _ (Permutation_map latitude Hp)).
    rewrite (Math_max_perm _ _ (Permutation_map latitude Hp)).
    rewrite (Math_min_perm _ _ (Permutation_map longitude Hp)).
    by rewrite (Math_max_perm _ _ (Permutation_map longitude Hp)).
  - unfold getMapBounds. destruct (locations r1) as [|a [|b rest]]; simpl in Hsmall.
    + apply Permutation_nil_l in Hp. by rewrite Hp.
    + apply Permutation_singleton_l in Hp. by rewrite Hp.
    + lia.
Qed.

Lemma map_bounds_order_independent_witness :
  locations threePoints
  ≡ₚ locations (mkResponse None None None (rev (locations threePoints)) "" None None)
  /\ getMapBounds (Some threePoints)
     = getMapBounds (Some (mkResponse None None None (rev (locations threePoints)) ""
                             None None)).
Proof.
  assert (Hp : locations threePoints
               ≡ₚ locations (mkResponse None None None (rev (locations threePoints)) ""
                               None None)).
  { simpl. apply Permutation_rev. }
  split; [exact Hp|]. exact (map_bounds_order_independent _ _ Hp).
Defined.

End ViewportMore.
